(** * Streaming generation client: SSE transport and generation orchestrator

    A shallow embedding of [src/lib/api/sseClient.ts],
    [src/lib/constants/programConfig.ts] and the [useProgramGeneration] hook of
    [src/hooks/useWorkout.ts], followed by the properties of the
    specification that concern them.

    JavaScript strings are modelled as [string] (sequences of code units
    below 256), JavaScript integers as [Z], string indexes as [nat]. *)

From Stdlib Require Import Ascii ZArith Lia Bool DecimalString.
From stdpp Require Import base list strings gmap.

Local Open Scope Z_scope.
Set Warnings "-clear-no-such-hyp".

(* ===================================================================== *)
(** * Part I: the model                                                    *)
(* ===================================================================== *)

(** ** The string primitives of the host language that the code uses *)

Module Js.

Definition LF : ascii := ascii_of_nat 10.

(** The one-character string that the source writes as a backslash-n. *)
Definition nl : string := String LF "".

(** [WhiteSpace] and [LineTerminator] code units below 256: TAB, LF, VT,
    FF, CR, SP and NBSP. These are what [String.prototype.trim] strips. *)
Definition isWhiteSpace (c : ascii) : bool :=
  bool_decide (nat_of_ascii c ∈ [9; 10; 11; 12; 13; 32; 160]%nat).

Fixpoint trimStart (s : string) : string :=
  match s with
  | EmptyString => EmptyString
  | String c s' => if isWhiteSpace c then trimStart s' else s
  end.

Fixpoint trimEnd (s : string) : string :=
  match s with
  | EmptyString => EmptyString
  | String c s' =>
      match trimEnd s' with
      | EmptyString => if isWhiteSpace c then EmptyString else String c EmptyString
      | t => String c t
      end
  end.

(** [s.trim()] *)
Definition trim (s : string) : string := trimEnd (trimStart s).

(** Truthiness of a string: only the empty string is falsy. *)
Definition truthy (s : string) : bool :=
  match s with EmptyString => false | String _ _ => true end.

(** [s.startsWith(p)] *)
Fixpoint startsWith (p s : string) : bool :=
  match p, s with
  | EmptyString, _ => true
  | String a p', String b s' => if Ascii.eqb a b then startsWith p' s' else false
  | String _ _, EmptyString => false
  end.

(** [s.substring(n)] and [s.slice(n)] for a non-negative [n]: the code
    units from index [n] on, the empty string when [n] is past the end. *)
Fixpoint substring (n : nat) (s : string) : string :=
  match n, s with
  | O, _ => s
  | S n', String _ s' => substring n' s'
  | S _, EmptyString => EmptyString
  end.

(** [s.charAt(0)] *)
Definition charAt0 (s : string) : string :=
  match s with
  | EmptyString => EmptyString
  | String c _ => String c EmptyString
  end.

(** [s.includes(needle)] *)
Fixpoint includes (needle s : string) : bool :=
  startsWith needle s ||
  match s with
  | EmptyString => false
  | String _ s' => includes needle s'
  end.

(** The first occurrence of [sep] in [s]: the text before it and the
    text after it. *)
Fixpoint find_sep (sep s : string) : option (string * string) :=
  if startsWith sep s then Some (EmptyString, substring (String.length sep) s)
  else match s with
       | EmptyString => None
       | String c s' =>
           match find_sep sep s' with
           | Some (a, b) => Some (String c a, b)
           | None => None
           end
       end.

Fixpoint split_fuel (fuel : nat) (sep s : string) : list string :=
  match fuel with
  | O => [s]
  | S fuel' =>
      match find_sep sep s with
      | None => [s]
      | Some (a, b) => a :: split_fuel fuel' sep b
      end
  end.

(** [s.split(sep)] for a non-empty separator: the pieces between the
    successive occurrences of [sep], found from left to right. Every
    occurrence consumes at least one code unit, so [S (length s)] rounds
    are enough (lemma [split_unfold] below). *)
Definition split (sep s : string) : list string :=
  split_fuel (S (String.length s)) sep s.

Definition toUpperChar (c : ascii) : ascii :=
  let n := nat_of_ascii c in
  if (97 <=? n)%nat && (n <=? 122)%nat then ascii_of_nat (n - 32) else c.

Definition toLowerChar (c : ascii) : ascii :=
  let n := nat_of_ascii c in
  if (65 <=? n)%nat && (n <=? 90)%nat then ascii_of_nat (n + 32) else c.

Fixpoint map_chars (f : ascii -> ascii) (s : string) : string :=
  match s with
  | EmptyString => EmptyString
  | String c s' => String (f c) (map_chars f s')
  end.

(** [s.toUpperCase()] and [s.toLowerCase()] on the ASCII letters; the
    other code units are left as they are. *)
Definition toUpperCase : string -> string := map_chars toUpperChar.
Definition toLowerCase : string -> string := map_chars toLowerChar.

Definition digit (c : ascii) : option Z :=
  let n := nat_of_ascii c in
  if (48 <=? n)%nat && (n <=? 57)%nat then Some (Z.of_nat (n - 48)) else None.

Fixpoint digits (acc : option Z) (s : string) : option Z :=
  match s with
  | EmptyString => acc
  | String c s' =>
      match digit c with
      | Some d => digits (Some (10 * default 0 acc + d)) s'
      | None => acc
      end
  end.

(** [parseInt(s, 10)]: leading white space, an optional sign, then the
    longest run of decimal digits; [None] stands for [NaN]. *)
Definition parseInt10 (s : string) : option Z :=
  match trimStart s with
  | String c s' =>
      if Ascii.eqb c "-" then Z.opp <$> digits None s'
      else if Ascii.eqb c "+" then digits None s'
      else digits None (String c s')
  | EmptyString => None
  end.

(** [String(n)] for an integer [n]. *)
Definition toString (n : Z) : string := NilZero.string_of_int (Z.to_int n).

(** The chunks of a text put back together. *)
Definition concat (chunks : list string) : string :=
  foldr String.append "" chunks.

(** An [Error] object: its [name] and its [message]. *)
Record Error := { name : string; message : string }.

(** [new Error(msg)] *)
Definition new_Error (msg : string) : Error := {| name := "Error"; message := msg |}.

End Js.

(** ** Computations over a state that may throw

    A JavaScript function body run against a mutable state [S]: it ends
    normally with a value or abruptly with a thrown [Error]; the writes made
    before a [throw] stay. *)

Module Eff.

Inductive completion (A : Type) : Type :=
| Normal (a : A)
| Throw (e : Js.Error).
Arguments Normal {A} a.
Arguments Throw {A} e.

Definition t (S A : Type) : Type := S -> S * completion A.

Definition ret {S A} (a : A) : t S A := fun s => (s, Normal a).

Definition throw {S A} (e : Js.Error) : t S A := fun s => (s, Throw e).

Definition bind {S A B} (m : t S A) (k : A -> t S B) : t S B :=
  fun s =>
    match m s with
    | (s', Normal a) => k a s'
    | (s', Throw e) => (s', Throw e)
    end.

Definition gets {S A} (f : S -> A) : t S A := fun s => (s, Normal (f s)).

Definition modify {S} (f : S -> S) : t S unit := fun s => (f s, Normal tt).

Definition when {S} (b : bool) (m : t S unit) : t S unit :=
  if b then m else ret tt.

(** [for (const x of l) body(x)] *)
Fixpoint for_each {S A} (l : list A) (body : A -> t S unit) : t S unit :=
  match l with
  | [] => ret tt
  | x :: l' => bind (body x) (fun _ => for_each l' body)
  end.

(** Runs a computation on a component of a larger state. *)
Definition zoom {S T A} (proj : S -> T) (upd : T -> S -> S) (m : t T A) : t S A :=
  fun s => let (t', r) := m (proj s) in (upd t' s, r).

(** [try { m } catch (e) { handler(e) }] *)
Definition try_catch {S A} (m : t S A) (handler : Js.Error -> t S A) : t S A :=
  fun s =>
    match m s with
    | (s', Throw e) => handler e s'
    | done => done
    end.

(** [try { m } finally { fin }] *)
Definition try_finally {S A} (m : t S A) (fin : t S unit) : t S A :=
  fun s =>
    let '(s', r) := m s in
    match fin s' with
    | (s'', Normal _) => (s'', r)
    | (s'', Throw e) => (s'', Throw e)
    end.

(** The state a computation leaves, however it ends. *)
Definition exec {S A} (m : t S A) (s : S) : S := fst (m s).

End Eff.

Declare Scope eff_scope.
Delimit Scope eff_scope with eff.
Notation "'do' x <- m ; k" := (Eff.bind m (fun x => k))
  (at level 10, x name, m at level 100, k at level 200) : eff_scope.
Notation "m >> k" := (Eff.bind m (fun _ => k))
  (at level 65, right associativity) : eff_scope.

(** ** [src/lib/api/sseClient.ts] *)

Module SseClient.
Import Js.

Record SSEEvent := {
  event : option string;
  data : string;
  id : option string;
  retry : option Z;
}.

(** One round of the [for (const line of lines)] loop of
    [parseSSEMessage]. *)
Definition parseLine (ev : SSEEvent) (line : string) : SSEEvent :=
  if startsWith "event:" line then
    {| event := Some (trim (substring 6 line)); data := data ev;
       id := id ev; retry := retry ev |}
  else if startsWith "data:" line then
    let dataLine := trim (substring 5 line) in
    {| event := event ev;
       data := if truthy (data ev) then data ev +:+ nl +:+ dataLine else dataLine;
       id := id ev; retry := retry ev |}
  else if startsWith "id:" line then
    {| event := event ev; data := data ev;
       id := Some (trim (substring 3 line)); retry := retry ev |}
  else if startsWith "retry:" line then
    match parseInt10 (trim (substring 6 line)) with
    | Some r => {| event := event ev; data := data ev; id := id ev; retry := Some r |}
    | None => ev
    end
  else ev.

Definition parseSSEMessage (message : string) : option SSEEvent :=
  let lines := split nl message in
  let ev := fold_left parseLine lines
              {| event := None; data := ""; id := None; retry := None |} in
  if truthy (data ev) then Some ev else None.

(** [const messages = buffer.split(sep); buffer = messages.pop() || ""]
    with the separator of two line feeds, after [buffer += newData]: the
    complete messages and the new buffer. *)
Definition takeMessages (buffer newData : string) : list string * string :=
  let messages := split (nl +:+ nl) (buffer +:+ newData) in
  (removelast messages, default "" (last messages)).

(** The events the loop [for (const message of messages)] hands to
    [onMessage], in order: a message that is blank after [trim], or that
    [parseSSEMessage] turns into [null], is skipped. *)
Definition framesOf (messages : list string) : list SSEEvent :=
  omap (fun message =>
          if truthy (trim message) then parseSSEMessage message else None)
       messages.

(** The decoder of the POST transport on a sequence of reads: the
    events handed to [onMessage], as long as it returns, and the buffer
    left. An empty read is skipped ([if (newData)]). *)
Fixpoint decodeChunks (buffer : string) (chunks : list string) : list SSEEvent * string :=
  match chunks with
  | [] => ([], buffer)
  | newData :: rest =>
      if truthy newData then
        let '(messages, buffer') := takeMessages buffer newData in
        let '(events, final) := decodeChunks buffer' rest in
        (framesOf messages ++ events, final)
      else decodeChunks buffer rest
  end.

(** The callbacks of [SSEClientOptions], each a computation on the
    caller's state [S]. [headers] do not reach the model, [signal] is the
    [SignalAbort] stimulus below. *)
Record SSEClientOptions (S : Type) := {
  onMessage : SSEEvent -> Eff.t S unit;
  onError : option (Error -> Eff.t S unit);
  onOpen : option (Eff.t S unit);
  onClose : option (Eff.t S unit);
}.
Arguments onMessage {S} _.
Arguments onError {S} _.
Arguments onOpen {S} _.
Arguments onClose {S} _.

Inductive ReadyState := UNSENT | OPENED | HEADERS_RECEIVED | LOADING | DONE.

(** [a === b] on the values of [readyState]. *)
Definition same (a b : ReadyState) : bool :=
  match a, b with
  | UNSENT, UNSENT | OPENED, OPENED | HEADERS_RECEIVED, HEADERS_RECEIVED
  | LOADING, LOADING | DONE, DONE => true
  | _, _ => false
  end.

Inductive Promise := Pending | Fulfilled | Rejected (e : Error).

(** What the handlers read off the [XMLHttpRequest] object. *)
Record Xhr := { readyState : ReadyState; status : Z; responseText : string }.

(** One call of [createSSEClientWithPost]: the request object, the
    variables [buffer] and [lastIndex] its handlers close over, the promise
    made by [new Promise], the promise the async function returns, and the
    state of the caller that the callbacks work on. *)
Record Client (S : Type) := {
  xhr : Xhr;
  buffer : string;
  lastIndex : nat;
  promise : Promise;
  returned : Promise;
  caller : S;
}.
Arguments xhr {S} _.
Arguments buffer {S} _.
Arguments lastIndex {S} _.
Arguments promise {S} _.
Arguments returned {S} _.
Arguments caller {S} _.

Section Transport.
Context {S : Type}.
Variable options : SSEClientOptions S.

Local Open Scope eff_scope.

Definition set_xhr (x : Xhr) (c : Client S) : Client S :=
  {| xhr := x; buffer := buffer c; lastIndex := lastIndex c;
     promise := promise c; returned := returned c; caller := caller c |}.
Definition set_buffer (b : string) (c : Client S) : Client S :=
  {| xhr := xhr c; buffer := b; lastIndex := lastIndex c;
     promise := promise c; returned := returned c; caller := caller c |}.
Definition set_lastIndex (n : nat) (c : Client S) : Client S :=
  {| xhr := xhr c; buffer := buffer c; lastIndex := n;
     promise := promise c; returned := returned c; caller := caller c |}.
Definition set_promise (p : Promise) (c : Client S) : Client S :=
  {| xhr := xhr c; buffer := buffer c; lastIndex := lastIndex c;
     promise := p; returned := returned c; caller := caller c |}.
Definition set_returned (p : Promise) (c : Client S) : Client S :=
  {| xhr := xhr c; buffer := buffer c; lastIndex := lastIndex c;
     promise := promise c; returned := p; caller := caller c |}.
Definition set_caller (s : S) (c : Client S) : Client S :=
  {| xhr := xhr c; buffer := buffer c; lastIndex := lastIndex c;
     promise := promise c; returned := returned c; caller := s |}.

(** Settling a promise that is already settled does nothing. *)
Definition settle (p : Promise) : Eff.t (Client S) unit :=
  Eff.modify (fun c => match promise c with Pending => set_promise p c | _ => c end).
Definition resolve : Eff.t (Client S) unit := settle Fulfilled.
Definition reject (e : Error) : Eff.t (Client S) unit := settle (Rejected e).

(** A callback of the caller, run from inside the client. *)
Definition callback {A} (m : Eff.t S A) : Eff.t (Client S) A :=
  Eff.zoom caller set_caller m.

(** [f?.()] *)
Definition optional (f : option (Eff.t S unit)) : Eff.t S unit :=
  match f with Some m => m | None => Eff.ret tt end.

(** [xhr.onreadystatechange] *)
Definition onreadystatechange : Eff.t (Client S) unit :=
  do x <- Eff.gets xhr;
  if same (readyState x) HEADERS_RECEIVED && negb (status x =? 200) then
    reject (new_Error ("HTTP error! status: " +:+ toString (status x)))
  else
    Eff.when (same (readyState x) HEADERS_RECEIVED)
      (callback (optional (onOpen options))) >>
    Eff.when (same (readyState x) LOADING || same (readyState x) DONE)
      (do last <- Eff.gets lastIndex;
       let newData := substring last (responseText x) in
       Eff.modify (set_lastIndex (String.length (responseText x))) >>
       Eff.when (truthy newData)
         (do buf <- Eff.gets buffer;
          let '(messages, buf') := takeMessages buf newData in
          Eff.modify (set_buffer buf') >>
          Eff.for_each messages (fun message =>
            Eff.when (truthy (trim message))
              match parseSSEMessage message with
              | Some ev => callback (onMessage options ev)
              | None => Eff.ret tt
              end))) >>
    Eff.when (same (readyState x) DONE)
      (callback (optional (onClose options)) >> resolve).

(** [xhr.onerror] *)
Definition onerror : Eff.t (Client S) unit :=
  reject (new_Error "Network error").

(** [xhr.onabort] *)
Definition onabort : Eff.t (Client S) unit :=
  callback (optional (onClose options)) >> resolve.

(** What the platform delivers to the request: a change of [readyState]
    (with the [status] and [responseText] the object shows from then on),
    an [error] event or an [abort] event. *)
Inductive XhrEvent :=
| ReadyStateChange (rs : ReadyState) (st : Z) (text : string)
| ErrorEvent
| AbortEvent.

(** The platform calls the handler of the event. The handlers are called
    by the event loop, not by the executor of [new Promise]: an exception
    that leaves a handler is reported by the platform and lost, it settles
    no promise. *)
Definition dispatch (c : Client S) (e : XhrEvent) : Client S :=
  match e with
  | ReadyStateChange rs st text =>
      Eff.exec onreadystatechange
        (set_xhr {| readyState := rs; status := st; responseText := text |} c)
  | ErrorEvent => Eff.exec onerror c
  | AbortEvent => Eff.exec onabort c
  end.

Definition dispatchAll (c : Client S) (es : list XhrEvent) : Client S :=
  fold_left dispatch es c.

Definition inFlight (rs : ReadyState) : bool :=
  match rs with
  | OPENED | HEADERS_RECEIVED | LOADING => true
  | UNSENT | DONE => false
  end.

(** [xhr.abort()], which the listener of the signal calls. By the
    XMLHttpRequest standard (and in React Native) a request that was sent
    and is not done goes to [DONE] with an empty response: [readystatechange]
    is fired, then [abort]; otherwise nothing is fired. *)
Definition xhr_abort (c : Client S) : Client S :=
  if inFlight (readyState (xhr c))
  then dispatchAll c [ReadyStateChange DONE 0 ""; AbortEvent]
  else c.

(** The rest of the async function after [await new Promise(...)], run
    once the promise is settled: nothing more on fulfilment, the [catch]
    block on rejection. What the block throws rejects the returned
    promise. *)
Definition resume (c : Client S) : Client S :=
  match returned c, promise c with
  | Pending, Fulfilled => set_returned Fulfilled c
  | Pending, Rejected error =>
      let handler :=
        if String.eqb (name error) "AbortError" || includes "abort" (message error)
        then optional (onClose options)
        else match onError options with
             | Some f => f error
             | None => Eff.ret tt
             end in
      let '(s, r) := handler (caller c) in
      set_returned (match r with
                    | Eff.Normal _ => Fulfilled
                    | Eff.Throw e => Rejected e
                    end)
                   (set_caller s c)
  | _, _ => c
  end.

(** What happens to a call between two turns of the event loop: the
    platform delivers some events in one task, or the abort signal fires;
    then the pending continuation of the async function runs. *)
Inductive Stimulus :=
| Events (es : list XhrEvent)
| SignalAbort.

Definition step (c : Client S) (x : Stimulus) : Client S :=
  resume match x with
         | Events es => dispatchAll c es
         | SignalAbort => xhr_abort c
         end.

(** The call after [xhr.send]: the request is opened and sent, nothing
    is received. *)
Definition sent (s : S) : Client S :=
  {| xhr := {| readyState := OPENED; status := 0; responseText := "" |};
     buffer := ""; lastIndex := 0; promise := Pending; returned := Pending;
     caller := s |}.

(** [createSSEClientWithPost(url, body, options)] against what the
    platform does to the request afterwards. *)
Definition createSSEClientWithPost (timeline : list Stimulus) (s : S) : Client S :=
  fold_left step timeline (sent s).

End Transport.

(** *** The GET transport, [createSSEClient]

    What [fetch] and the reader of the body give: [fetch] rejects, or it
    resolves with a response of some status whose body is absent or yields
    chunks of text until it is done or a read fails. *)
Inductive Body :=
| BodyDone
| BodyChunk (text : string) (rest : Body)
| BodyFails (e : Error).

Inductive Fetched :=
| FetchRejects (e : Error)
| Response (st : Z) (body : option Body).

Section Fetch.
Context {S : Type}.
Variable options : SSEClientOptions S.

Local Open Scope eff_scope.

(** [response.ok] *)
Definition ok (st : Z) : bool := (200 <=? st) && (st <=? 299).

(** The loop [while (true) { const { done, value } = await reader.read(); ... }] *)
Fixpoint readLoop (buffer : string) (body : Body) : Eff.t S unit :=
  match body with
  | BodyDone => Eff.ret tt
  | BodyFails e => Eff.throw e
  | BodyChunk text rest =>
      let '(messages, buffer') := takeMessages buffer text in
      Eff.for_each messages (fun message =>
        Eff.when (truthy (trim message))
          match parseSSEMessage message with
          | Some ev => onMessage options ev
          | None => Eff.ret tt
          end) >>
      readLoop buffer' rest
  end.

(** [createSSEClient(url, options)]: the returned promise is fulfilled
    when the computation ends normally and rejected with what it throws. *)
Definition createSSEClient (fetched : Fetched) : Eff.t S unit :=
  Eff.try_catch
    match fetched with
    | FetchRejects e => Eff.throw e
    | Response st body =>
        if negb (ok st) then
          Eff.throw (new_Error ("HTTP error! status: " +:+ toString st))
        else
          match body with
          | None => Eff.throw (new_Error "Response body is null")
          | Some b =>
              optional (onOpen options) >>
              Eff.try_finally (readLoop "" b) (optional (onClose options))
          end
    end
    (fun error =>
       if String.eqb (name error) "AbortError" then optional (onClose options)
       else match onError options with
            | Some f => f error
            | None => Eff.ret tt
            end).

End Fetch.

(** A caller that only records the callbacks it gets. *)
Inductive Call :=
| CalledOnOpen
| CalledOnMessage (ev : SSEEvent)
| CalledOnError (e : Error)
| CalledOnClose.

Definition record (c : Call) : Eff.t (list Call) unit :=
  Eff.modify (fun log => log ++ [c]).

Definition recorder : SSEClientOptions (list Call) :=
  {| onMessage := fun ev => record (CalledOnMessage ev);
     onError := Some (fun e => record (CalledOnError e));
     onOpen := Some (record CalledOnOpen);
     onClose := Some (record CalledOnClose) |}.

(** What the platform delivers while a body arrives in the given
    chunks after the text [received]: at every chunk a [readystatechange]
    in state [LOADING], with the whole text received so far. *)
Fixpoint arrivals (received : string) (chunks : list string) : list XhrEvent :=
  match chunks with
  | [] => []
  | chunk :: rest =>
      ReadyStateChange LOADING 200 (received +:+ chunk)
      :: arrivals (received +:+ chunk) rest
  end.

End SseClient.

(** ** [src/lib/constants/programConfig.ts] *)

Module ProgramConfig.

(** The own properties of the object literal [dayNameToNumber]
    (0 = Sunday, 6 = Saturday). *)
Definition dayNames : gmap string Z :=
  list_to_map
    [("Sunday", 0); ("Monday", 1); ("Tuesday", 2); ("Wednesday", 3);
     ("Thursday", 4); ("Friday", 5); ("Saturday", 6)].

(** The property names every object literal inherits from
    [Object.prototype]. *)
Definition ObjectPrototype : list string :=
  ["constructor"; "hasOwnProperty"; "isPrototypeOf"; "propertyIsEnumerable";
   "toLocaleString"; "toString"; "valueOf"; "__proto__";
   "__defineGetter__"; "__defineSetter__"; "__lookupGetter__"; "__lookupSetter__"].

(** What reading a property of [dayNameToNumber] gives: a number of the
    table or a member inherited from the prototype. *)
Inductive Property :=
| Number (n : Z)
| Inherited (key : string).

(** [dayNameToNumber[key]]; [None] is [undefined]. *)
Definition dayNameToNumber (key : string) : option Property :=
  match dayNames !! key with
  | Some n => Some (Number n)
  | None => if bool_decide (key ∈ ObjectPrototype) then Some (Inherited key) else None
  end.

(** The keys on which [dayNameToNumber] gives something, and what. *)
Definition properties : list (string * Property) :=
  [("Sunday", Number 0); ("Monday", Number 1); ("Tuesday", Number 2);
   ("Wednesday", Number 3); ("Thursday", Number 4); ("Friday", Number 5);
   ("Saturday", Number 6)]
  ++ ((fun key => (key, Inherited key)) <$> ObjectPrototype).

End ProgramConfig.

(** ** [src/hooks/useWorkout.ts]: the hook [useProgramGeneration] *)

Module UseWorkout.
Import Js SseClient ProgramConfig.

Definition MAX_RETRIES : nat := 2.
Definition RETRY_DELAY : Z := 3000.

Inductive GenerationStage :=
| idle | preparing | generating | streaming | complete | failed | retrying.
(* [failed] is the stage the source spells "error". *)

Record StreamingWorkout := {
  id : string;
  title : string;
  body : string;
  scheduled_date : option string;
  tags : option (list string);
}.

(** The fields of [ProgramFormData] that the control flow of
    [generateProgram] reads. The other fields are copied into the request
    body as they are and nothing reads them back. *)
Record ProgramFormData := {
  numberOfWeeks : Z;
  daysPerWeek : Z;
  daysOfWeek : list string;
}.

Module GenerationResult.
Record t := { success : bool; workoutsCreated : Z; error : option string }.
End GenerationResult.

Record Progress := { current : Z; total : Z }.

(** The state of the hook: the five [useState] cells that do not depend
    on the clock, and the two refs. [abortControllerRef] names the attempt
    whose controller it holds, [timerRef] tells whether the interval runs. *)
Record Hook := {
  isGenerating : bool;
  stage : GenerationStage;
  progress : Progress;
  streamingWorkouts : list StreamingWorkout;
  error : option string;
  abortControllerRef : option nat;
  timerRef : bool;
}.

Definition setIsGenerating (b : bool) (h : Hook) : Hook :=
  {| isGenerating := b; stage := stage h; progress := progress h;
     streamingWorkouts := streamingWorkouts h; error := error h;
     abortControllerRef := abortControllerRef h; timerRef := timerRef h |}.
Definition setStage (g : GenerationStage) (h : Hook) : Hook :=
  {| isGenerating := isGenerating h; stage := g; progress := progress h;
     streamingWorkouts := streamingWorkouts h; error := error h;
     abortControllerRef := abortControllerRef h; timerRef := timerRef h |}.
Definition setProgress (f : Progress -> Progress) (h : Hook) : Hook :=
  {| isGenerating := isGenerating h; stage := stage h; progress := f (progress h);
     streamingWorkouts := streamingWorkouts h; error := error h;
     abortControllerRef := abortControllerRef h; timerRef := timerRef h |}.
Definition setStreamingWorkouts (f : list StreamingWorkout -> list StreamingWorkout)
    (h : Hook) : Hook :=
  {| isGenerating := isGenerating h; stage := stage h; progress := progress h;
     streamingWorkouts := f (streamingWorkouts h); error := error h;
     abortControllerRef := abortControllerRef h; timerRef := timerRef h |}.
Definition setError (e : option string) (h : Hook) : Hook :=
  {| isGenerating := isGenerating h; stage := stage h; progress := progress h;
     streamingWorkouts := streamingWorkouts h; error := e;
     abortControllerRef := abortControllerRef h; timerRef := timerRef h |}.
Definition setAbortControllerRef (r : option nat) (h : Hook) : Hook :=
  {| isGenerating := isGenerating h; stage := stage h; progress := progress h;
     streamingWorkouts := streamingWorkouts h; error := error h;
     abortControllerRef := r; timerRef := timerRef h |}.
Definition setTimerRef (b : bool) (h : Hook) : Hook :=
  {| isGenerating := isGenerating h; stage := stage h; progress := progress h;
     streamingWorkouts := streamingWorkouts h; error := error h;
     abortControllerRef := abortControllerRef h; timerRef := b |}.

Definition clearStreamingWorkouts : Hook -> Hook :=
  setStreamingWorkouts (fun _ => []).

Definition addStreamingWorkout (workout : StreamingWorkout) : Hook -> Hook :=
  setStreamingWorkouts (fun prev => prev ++ [workout]).

Definition getTimeout (weeks : Z) : Z :=
  if weeks <? 5 then 5 * 60 * 1000
  else if weeks <? 8 then 450000 (* 7.5 * 60 * 1000 *)
  else 30 * 60 * 1000.

(** [day.charAt(0).toUpperCase() + day.slice(1).toLowerCase()] *)
Definition capitalized (day : string) : string :=
  toUpperCase (charAt0 day) +:+ toLowerCase (substring 1 day).

(** The callback of [formData.daysOfWeek.map] on a day of the declared
    type [string]; [None] is the [null] that the [filter] drops. *)
Definition dayToNumber (day : string) : option Property :=
  if negb (truthy day) then None
  else match dayNameToNumber day with
       | Some n => Some n
       | None =>
           let capitalizedDay := capitalized day in
           match dayNameToNumber capitalizedDay with
           | Some n => Some n
           | None => None
           end
       end.

(** [daysOfWeekNumbers], with the fallback to Monday, Wednesday and
    Friday. *)
Definition daysOfWeekNumbers (days : list string) : list Property :=
  let numbers := omap dayToNumber days in
  if bool_decide (length numbers = 0%nat) then [Number 1; Number 3; Number 5]
  else numbers.

(** The fields of the request body that are computed. *)
Record RequestBody := {
  duration_weeks : Z;
  days_per_week : Z;
  days_of_week : list Property;
  forceRegenerate : bool;
}.

Definition requestBody (formData : ProgramFormData) (isRegeneration : bool) : RequestBody :=
  {| duration_weeks := numberOfWeeks formData;
     days_per_week := daysPerWeek formData;
     days_of_week := daysOfWeekNumbers (daysOfWeek formData);
     forceRegenerate := isRegeneration |}.

(** What [JSON.parse(event.data)] gives, as far as [onMessage] looks at
    it: the value of [data.type] and the fields read under that type. A
    [workout] that is present is a [StreamingWorkout], whose [id] is a
    string. [OtherValue] is any other value but [null]; reading [type] off
    [null] throws. *)
Inductive Payload :=
| Status
| WorkoutChunk (workout : option StreamingWorkout)
| ProgramMetadata
| Warning
| ErrorPayload (message : option string)
| CompletePayload
| OtherValue
| Null.

(** What is local to one round of the retry loop: the hook, the set
    [processedWorkouts], whether [clearTimeout(timeoutId)] was called and
    whether the signal of [controller] is aborted. *)
Record Attempt := {
  hook : Hook;
  processedWorkouts : gset string;
  timeoutCleared : bool;
  aborted : bool;
}.

Definition onHook (f : Hook -> Hook) (a : Attempt) : Attempt :=
  {| hook := f (hook a); processedWorkouts := processedWorkouts a;
     timeoutCleared := timeoutCleared a; aborted := aborted a |}.
Definition setProcessedWorkouts (p : gset string) (a : Attempt) : Attempt :=
  {| hook := hook a; processedWorkouts := p;
     timeoutCleared := timeoutCleared a; aborted := aborted a |}.
Definition clearTimeout (a : Attempt) : Attempt :=
  {| hook := hook a; processedWorkouts := processedWorkouts a;
     timeoutCleared := true; aborted := aborted a |}.
Definition setAborted (a : Attempt) : Attempt :=
  {| hook := hook a; processedWorkouts := processedWorkouts a;
     timeoutCleared := timeoutCleared a; aborted := true |}.

Local Open Scope eff_scope.

(** The body of [onMessage] after [JSON.parse]. *)
Definition handlePayload (data : Payload) : Eff.t Attempt unit :=
  match data with
  | Status => Eff.ret tt
  | WorkoutChunk (Some workout) =>
      do processed <- Eff.gets processedWorkouts;
      if bool_decide (id workout ∈ processed) then Eff.ret tt
      else
        Eff.modify (setProcessedWorkouts ({[ id workout ]} ∪ processed)) >>
        Eff.modify (onHook (addStreamingWorkout workout)) >>
        Eff.modify (fun a =>
          onHook (setProgress (fun prev =>
            {| current := Z.of_nat (size (processedWorkouts a));
               total := total prev |})) a)
  | WorkoutChunk None => Eff.ret tt
  | ProgramMetadata => Eff.ret tt
  | Warning => Eff.ret tt
  | ErrorPayload message =>
      Eff.throw (new_Error (match message with
                            | Some m => if truthy m then m else "Generation failed"
                            | None => "Generation failed"
                            end))
  | CompletePayload => Eff.ret tt
  | OtherValue => Eff.ret tt
  | Null =>
      Eff.throw {| name := "TypeError";
                   message := "Cannot read property 'type' of null" |}
  end.

(** The deliveries of a sequence that bring an identifier not seen
    before, in the order of the sequence. *)
Fixpoint firstSeen (seen : gset string) (ws : list StreamingWorkout) : list StreamingWorkout :=
  match ws with
  | [] => []
  | w :: rest =>
      if bool_decide (id w ∈ seen) then firstSeen seen rest
      else w :: firstSeen ({[ id w ]} ∪ seen) rest
  end.

(** [onMessage] called in turn with the [workout_chunk] payloads of the
    workouts [ws]. *)
Definition deliverChunks (ws : list StreamingWorkout) : Eff.t Attempt unit :=
  Eff.for_each ((fun w => WorkoutChunk (Some w)) <$> ws) handlePayload.

(** The classification in the [catch] of the retry loop. *)
Definition isRetryable (e : Error) : bool :=
  includes "503" (message e) || includes "504" (message e)
  || includes "Network" (message e).

(** What happens while [generateProgram] awaits the transport: the
    platform delivers events to the request, the timer set by
    [setTimeout(() => controller.abort(), timeout)] fires, or the user
    calls [cancel]. *)
Inductive Occurrence :=
| Delivered (es : list XhrEvent)
| TimerFires
| UserCancel.

(** What one round of the loop meets: the access token of the session,
    if any, and what happens while it awaits the transport. *)
Record Environment := {
  access_token : option string;
  timeline : list Occurrence;
}.

(** How a round of the loop ends: the transport call returned, something
    was thrown, or the awaited promise is never settled. *)
Inductive Outcome :=
| Returned (size : Z)
| Thrown (e : Error)
| Unsettled.

(** What the rounds do to the outside, in order. *)
Inductive Effect :=
| Slept (ms : Z)
| Posted (body : RequestBody) (timeout : Z).

Record Run := {
  result : option GenerationResult.t;
  final : Hook;
  outcomes : list Outcome;
  effects : list Effect;
}.

(** The waits of [await delay(ms)] among the effects, in order. *)
Definition delays (fx : list Effect) : list Z :=
  omap (fun e => match e with Slept ms => Some ms | Posted _ _ => None end) fx.

Section Generation.
(** [JSON.parse] seen through [Payload]; [None] when it throws. *)
Variable JSON_parse : string -> option Payload.

Definition onMessage (ev : SSEEvent) : Eff.t Attempt unit :=
  match JSON_parse (data ev) with
  | None => Eff.ret tt
  | Some d => handlePayload d
  end.

(** The options [generateProgram] passes to [createSSEClientWithPost]. *)
Definition options : SSEClientOptions Attempt :=
  {| SseClient.onMessage := onMessage;
     onError := Some (fun err => Eff.modify clearTimeout >> Eff.throw err);
     onOpen := Some (Eff.modify (onHook (setStage streaming)));
     onClose := Some (Eff.modify clearTimeout) |}.

(** [controller.abort()]: the first call aborts the signal, whose
    listener calls [xhr.abort()]; later calls do nothing. *)
Definition controller_abort (c : Client Attempt) : Client Attempt :=
  if aborted (caller c) then c
  else xhr_abort options (set_caller (setAborted (caller c)) c).

(** [cancel()] while the transport of a round is awaited. *)
Definition cancel (c : Client Attempt) : Client Attempt :=
  let c :=
    match abortControllerRef (hook (caller c)) with
    | Some _ =>
        let c := controller_abort c in
        set_caller (onHook (setAbortControllerRef None) (caller c)) c
    | None => c
    end in
  set_caller
    (onHook (fun h => setError (Some "Generation cancelled")
                        (setStage idle (setIsGenerating false (setTimerRef false h))))
            (caller c))
    c.

Definition occur (c : Client Attempt) (o : Occurrence) : Client Attempt :=
  resume options
    match o with
    | Delivered es => dispatchAll options c es
    | TimerFires => if timeoutCleared (caller c) then c else controller_abort c
    | UserCancel => cancel c
    end.

(** [await createSSEClientWithPost(...)]: what happens until the
    returned promise is settled. *)
Fixpoint await (c : Client Attempt) (tl : list Occurrence) : Client Attempt :=
  match returned c, tl with
  | Pending, o :: rest => await (occur c o) rest
  | _, _ => c
  end.

Variable env : nat -> Environment.
Variable formData : ProgramFormData.
Variable isRegeneration : bool.

(** The body of the [try] of one round of the loop, up to the [return]
    of the success or the [throw]. *)
Definition attempt (retryCount : nat) (h : Hook) : Hook * list Effect * Outcome :=
  let retry := bool_decide (0 < retryCount)%nat in
  let h := if retry then clearStreamingWorkouts (setStage retrying h) else h in
  let slept := if retry then [Slept RETRY_DELAY] else [] in
  match access_token (env retryCount) with
  | None => (h, slept, Thrown (new_Error "No authentication token"))
  | Some token =>
      if negb (truthy token) then (h, slept, Thrown (new_Error "No authentication token"))
      else
        let body := requestBody formData isRegeneration in
        let h := setStage generating h in
        let expectedTotal := numberOfWeeks formData * daysPerWeek formData in
        let h := setProgress (fun _ => {| current := 0; total := expectedTotal |}) h in
        let h := setAbortControllerRef (Some retryCount) h in
        let timeout := getTimeout (numberOfWeeks formData) in
        let c := await (sent {| hook := h; processedWorkouts := ∅;
                                timeoutCleared := false; aborted := false |})
                       (timeline (env retryCount)) in
        let a := caller c in
        let done := slept ++ [Posted body timeout] in
        match returned c with
        | Fulfilled =>
            (setIsGenerating false (setTimerRef false (setStage complete (hook a))),
             done, Returned (Z.of_nat (size (processedWorkouts a))))
        | Rejected e => (hook a, done, Thrown e)
        | Pending => (hook a, done, Unsettled)
        end
  end.

(** The code after the loop. *)
Definition giveUp (lastError : option Error) (h : Hook) : Hook * GenerationResult.t :=
  (setIsGenerating false
     (setTimerRef false
        (setError (Some match lastError with
                        | Some e => if truthy (message e) then message e
                                    else "Generation failed"
                        | None => "Generation failed"
                        end)
                  (setStage failed h))),
   {| GenerationResult.success := false;
      GenerationResult.workoutsCreated := 0;
      GenerationResult.error := message <$> lastError |}).

(** The function after the loop is left. *)
Definition leave (lastError : option Error) (h : Hook)
    (os : list Outcome) (fx : list Effect) : Run :=
  let '(h', r) := giveUp lastError h in
  {| result := Some r; final := h'; outcomes := os; effects := fx |}.

(** [while (retryCount <= MAX_RETRIES) { try { ... } catch (err) { ... } }]
    and the code after it. A round either ends the function or starts the
    next round with [retryCount] one higher, so [fuel] counts the rounds
    left; when it is out the loop is left as when its test fails. *)
Fixpoint loop (fuel retryCount : nat) (lastError : option Error) (h : Hook)
    (os : list Outcome) (fx : list Effect) : Run :=
  match fuel with
  | O => leave lastError h os fx
  | S fuel' =>
      if bool_decide (retryCount <= MAX_RETRIES)%nat then
        let '(h', fx', o) := attempt retryCount h in
        let os := os ++ [o] in
        let fx := fx ++ fx' in
        match o with
        | Returned n =>
            {| result := Some {| GenerationResult.success := true;
                                 GenerationResult.workoutsCreated := n;
                                 GenerationResult.error := None |};
               final := h'; outcomes := os; effects := fx |}
        | Unsettled =>
            {| result := None; final := h'; outcomes := os; effects := fx |}
        | Thrown e =>
            if isRetryable e then
              let retryCount := Datatypes.S retryCount in
              if bool_decide (retryCount <= MAX_RETRIES)%nat
              then loop fuel' retryCount (Some e) h' os fx
              else leave (Some e) h' os fx
            else leave (Some e) h' os fx
        end
      else leave lastError h os fx
  end.

(** The state reset at the start of [generateProgram]. *)
Definition reset (h : Hook) : Hook :=
  setTimerRef true
    (clearStreamingWorkouts
       (setProgress (fun _ => {| current := 0; total := 0 |})
          (setStage preparing (setError None (setIsGenerating true h))))).

(** [generateProgram(formData, isRegeneration)], called on the hook in
    state [h]; [result] is what the returned promise resolves with, [None]
    when it is never settled. *)
Definition generateProgram (h : Hook) : Run :=
  loop (Datatypes.S MAX_RETRIES) 0 None (reset h) [] [].

End Generation.

(** The waits before round [retryCount]. *)
Definition waits (retryCount : nat) : list Z :=
  if bool_decide (0 < retryCount)%nat then [RETRY_DELAY] else [].

(** The ways the rounds from round [retryCount] on can go: how each
    round ends, the waits made, and what the promise resolves with. *)
Inductive Rounds : nat -> list Outcome -> list Z -> option GenerationResult.t -> Prop :=
| rounds_returned retryCount n :
    (retryCount <= MAX_RETRIES)%nat ->
    Rounds retryCount [Returned n] (waits retryCount)
      (Some {| GenerationResult.success := true;
               GenerationResult.workoutsCreated := n;
               GenerationResult.error := None |})
| rounds_unsettled retryCount :
    (retryCount <= MAX_RETRIES)%nat ->
    Rounds retryCount [Unsettled] (waits retryCount) None
| rounds_fatal retryCount e :
    (retryCount <= MAX_RETRIES)%nat ->
    isRetryable e = false ->
    Rounds retryCount [Thrown e] (waits retryCount)
      (Some {| GenerationResult.success := false;
               GenerationResult.workoutsCreated := 0;
               GenerationResult.error := Some (message e) |})
| rounds_exhausted e :
    isRetryable e = true ->
    Rounds MAX_RETRIES [Thrown e] (waits MAX_RETRIES)
      (Some {| GenerationResult.success := false;
               GenerationResult.workoutsCreated := 0;
               GenerationResult.error := Some (message e) |})
| rounds_retry retryCount e os ds res :
    (retryCount < MAX_RETRIES)%nat ->
    isRetryable e = true ->
    Rounds (S retryCount) os ds res ->
    Rounds retryCount (Thrown e :: os) (waits retryCount ++ ds) res.

(** The hook as [useProgramGeneration] first returns it. *)
Definition initial : Hook :=
  {| isGenerating := false; stage := idle;
     progress := {| current := 0; total := 0 |};
     streamingWorkouts := []; error := None;
     abortControllerRef := None; timerRef := false |}.

End UseWorkout.

(** ** What a message says, line by line *)

Module Frames.
Import Js SseClient.

(** The value of a line of the given field: the text after the prefix,
    trimmed. [None] when the line is of another kind. *)
Definition fieldValue (prefix : string) (line : string) : option string :=
  if startsWith prefix line
  then Some (trim (substring (String.length prefix) line))
  else None.

(** The integer of a [retry:] line; [None] for another line and for a
    value [parseInt] makes nothing of. *)
Definition retryValue (line : string) : option Z :=
  fieldValue "retry:" line ≫= parseInt10.

(** The values joined by line feeds. *)
Fixpoint joinLines (values : list string) : string :=
  match values with
  | [] => ""
  | [v] => v
  | v :: rest => v +:+ nl +:+ joinLines rest
  end.

(** The values without the empty ones at the front. *)
Fixpoint dropEmpty (values : list string) : list string :=
  match values with
  | [] => []
  | v :: rest => if truthy v then values else dropEmpty rest
  end.

(** The texts of the chunks of a body, and how the body ends. *)
Fixpoint chunksOf (body : Body) : list string :=
  match body with
  | BodyChunk text rest => text :: chunksOf rest
  | BodyDone | BodyFails _ => []
  end.

Fixpoint failureOf (body : Body) : option Error :=
  match body with
  | BodyChunk _ rest => failureOf rest
  | BodyDone => None
  | BodyFails e => Some e
  end.

(** What the platform does to the request of a response with status
    200 whose body arrives in the given chunks: the headers, the chunks one
    by one, the end. *)
Definition streamed (chunks : list string) : list Stimulus :=
  Events [ReadyStateChange HEADERS_RECEIVED 200 ""]
  :: ((fun e => Events [e]) <$> arrivals "" chunks)
  ++ [Events [ReadyStateChange DONE 200 (concat chunks)]].

(** A body that gives the chunks in turn and then is done. *)
Definition bodyOf (chunks : list string) : Body :=
  foldr BodyChunk BodyDone chunks.

Definition isErrorCall (k : Call) : bool :=
  match k with CalledOnError _ => true | _ => false end.

(** The number of [onError] calls in a record. *)
Definition errorCalls (log : list Call) : nat :=
  length (List.filter isErrorCall log).

End Frames.

(** ** The tables of [src/lib/constants/programConfig.ts] and the
    screens that read them *)

Module Tables.

(** [equipmentList]: the [value] and the [label] of every entry. *)
Definition equipmentList : list (Z * string) :=
  [(1, "Barbell"); (2, "Bumper Plates"); (3, "Power Rack"); (4, "Kettlebell");
   (46, "Rower"); (47, "Treadmill"); (5, "Dumbbell"); (10, "Air Bike");
   (6, "Jump Rope"); (7, "Medicine Ball"); (8, "Plyo Box"); (11, "SkiErg");
   (12, "Wall Ball"); (14, "Gymnastic Rings"); (15, "Climbing Rope");
   (16, "Resistance Bands"); (17, "Sled"); (18, "Battle Ropes"); (19, "AbMat");
   (20, "Weight Vest"); (21, "Hex Bar"); (22, "Slam Ball"); (23, "Sandbags");
   (24, "Foam Roller"); (25, "Lacrosse Ball"); (26, "PVC Pipe"); (27, "Yoga Mat");
   (35, "Suspension Trainer"); (36, "Safety Squat Bar"); (37, "Swiss Bar");
   (38, "Parallettes"); (39, "Smith Machine"); (40, "Leg Press Machine");
   (41, "Dip Machine"); (42, "GHD Machine"); (44, "Stationary Bike");
   (45, "Elliptical"); (49, "Climbing Wall");
   (50, "Swimming Pool"); (51, "Open Water Access"); (52, "Road Bike");
   (53, "Time Trial/Tri Bike"); (54, "Bike Trainer/Turbo"); (55, "Power Meter");
   (56, "Heart Rate Monitor"); (57, "Wetsuit"); (58, "Running Track");
   (59, "Trail Access"); (60, "Bike Computer/GPS");
   (61, "Nutrition/Hydration System");
   (62, "Recovery Tools (Ice Bath/Compression)")].

(** [gymTypes]: the [value] of every entry (its [label] is the same
    text). *)
Definition gymTypes : list string :=
  ["Crossfit Box"; "Commercial Gym"; "Home Gym"; "Minimal Equipment";
   "Outdoor Space"; "Powerlifting Gym"; "Olympic Weightlifting Gym";
   "Bodyweight Only"; "Studio Gym"; "University Gym"; "Hotel Gym";
   "Apartment Gym"; "Boxing/MMA Gym"; "Triathlon Training Facility";
   "Multi-Sport Complex"; "Other"].

(** The own properties of the object literal [gymEquipmentPresets]. *)
Definition gymEquipmentPresets : list (string * list Z) :=
  [("Crossfit Box",
    [1; 2; 3; 4; 5; 6; 7; 8; 10; 11; 12; 14; 15; 16; 17; 18; 19; 20; 22; 23; 26;
     46]);
   ("Commercial Gym", [1; 2; 3; 4; 5; 16; 24; 27; 39; 40; 41; 42; 44; 45; 46; 47]);
   ("Home Gym", [4; 5; 6; 16; 24; 27]);
   ("Minimal Equipment", [4; 5; 6; 16; 27]);
   ("Outdoor Space", [6; 16; 18; 27]);
   ("Powerlifting Gym", [1; 2; 3; 5; 16; 21; 24; 27; 36; 37]);
   ("Olympic Weightlifting Gym", [1; 2; 3; 5; 16; 24; 27]);
   ("Bodyweight Only", [27; 38]);
   ("Studio Gym", [4; 5; 6; 16; 27; 35; 44; 45]);
   ("University Gym", [1; 2; 3; 4; 5; 39; 40; 41; 42; 44; 45; 46; 47]);
   ("Hotel Gym", [5; 16; 27; 39; 44; 45; 47]);
   ("Apartment Gym", [5; 16; 27; 44; 45]);
   ("Boxing/MMA Gym", [5; 6; 7; 16; 17; 18; 22; 27; 35]);
   ("Triathlon Training Facility",
    [50; 51; 52; 53; 54; 55; 56; 57; 58; 59; 60; 61; 62; 6; 16; 27; 47]);
   ("Multi-Sport Complex",
    [50; 52; 54; 55; 56; 58; 60; 61; 1; 2; 3; 4; 5; 6; 16; 27; 44; 45; 46; 47]);
   ("Other", [])].

(** The own properties of the object literal [dayNumberToName]. *)
Definition dayNumberToName : list (Z * string) :=
  [(0, "Sunday"); (1, "Monday"); (2, "Tuesday"); (3, "Wednesday");
   (4, "Thursday"); (5, "Friday"); (6, "Saturday")].

(** An entry of [daysOfWeek], the days offered for selection. *)
Record Day := { value : string; label : string; number : Z }.

Definition daysOfWeek : list Day :=
  [{| value := "Monday"; label := "Mon"; number := 1 |};
   {| value := "Tuesday"; label := "Tue"; number := 2 |};
   {| value := "Wednesday"; label := "Wed"; number := 3 |};
   {| value := "Thursday"; label := "Thu"; number := 4 |};
   {| value := "Friday"; label := "Fri"; number := 5 |};
   {| value := "Saturday"; label := "Sat"; number := 6 |};
   {| value := "Sunday"; label := "Sun"; number := 0 |}].

End Tables.

Module Screens.
Import Js ProgramConfig UseWorkout Tables.

(** [equipmentList.find((e) => e.value === id)] *)
Definition findByValue (id : Z) : option (Z * string) :=
  List.find (fun e => e.1 =? id) equipmentList.

(** [equipmentList.find((e) => e.label === name)] *)
Definition findByLabel (name : string) : option (Z * string) :=
  List.find (fun e => String.eqb e.2 name) equipmentList.

(** [selectedEquipmentNames] of [generateProgram]: the label of every
    identifier, the empty string for an identifier that is not listed,
    then [filter(Boolean)]. *)
Definition selectedEquipmentNames (equipment : list Z) : list string :=
  List.filter truthy
    ((fun id => match findByValue id with
                | Some e => e.2
                | None => ""
                end) <$> equipment).

(** [equipmentLabels] of [saveConfiguration] in the builder: the
    [label] of every identifier that is listed ([undefined] is filtered
    out). *)
Definition equipmentLabels (selectedEquipment : list Z) : list string :=
  omap (fun id => snd <$> findByValue id) selectedEquipment.

(** [equipmentNames] of [saveProgram] in the program writer:
    [?.label], then [filter(Boolean)]. *)
Definition equipmentNames (equipment : list Z) : list string :=
  omap (fun id => match snd <$> findByValue id with
                  | Some l => if truthy l then Some l else None
                  | None => None
                  end) equipment.

(** [equipmentIds], as both screens compute it from the labels stored
    with a program: the [value] of every label that is listed. *)
Definition equipmentIds (labels : list string) : list Z :=
  omap (fun name => fst <$> findByLabel name) labels.

(** [gymEquipmentPresets[gymType]]: a preset of the table, a member
    inherited from [Object.prototype], or [undefined]. *)
Inductive Preset :=
| Ids (ids : list Z)
| Member (key : string).

Definition presetOf (gymType : string) : option Preset :=
  match List.find (fun p => String.eqb p.1 gymType) gymEquipmentPresets with
  | Some p => Some (Ids p.2)
  | None => if bool_decide (gymType ∈ ObjectPrototype) then Some (Member gymType)
            else None
  end.

(** The equipment of the form state of the program writer when a
    program is loaded, from [gym_details.equipment] (absent, or an array of
    numbers and strings) and [gym_details.gym_type]: numbers are taken as
    they are when the first item is a number, labels are converted
    otherwise; when that gives nothing and there is a gym type, its
    preset. *)
Definition loadEquipment (equipment : option (list (Z + string))) (gym_type : string)
    : Preset :=
  let equipmentIds :=
    match equipment with
    | Some items =>
        match items with
        | inl _ :: _ =>
            omap (fun item => match item with inl n => Some n | inr _ => None end) items
        | _ =>
            equipmentIds
              (omap (fun item => match item with inr name => Some name | inl _ => None end)
                    items)
        end
    | None => []
    end in
  if bool_decide (length equipmentIds = 0%nat) && truthy gym_type then
    match presetOf gym_type with
    | Some preset => preset
    | None => Ids []
    end
  else Ids equipmentIds.

(** [current.includes(x) ? current.filter((y) => y !== x) : [...current, x]],
    the body of [handleDayToggle], [toggleDay] and [toggleEquipment]. *)
Definition toggle {A} `{EqDecision A} (x : A) (current : list A) : list A :=
  if bool_decide (x ∈ current) then filter (fun y => y <> x) current
  else current ++ [x].

Definition handleDayToggle (day : string) (daysOfWeek : list string) : list string :=
  toggle day daysOfWeek.
Definition toggleDay (day : string) (daysOfWeek : list string) : list string :=
  toggle day daysOfWeek.
Definition toggleEquipment (id : Z) (selectedEquipment : list Z) : list Z :=
  toggle id selectedEquipment.

(** The days after the presses of the day chips, in order. *)
Definition pressDays (presses : list string) (daysOfWeek : list string) : list string :=
  fold_left (fun days day => handleDayToggle day days) presses daysOfWeek.

(** The fields of the form data that [handleConfirmGeneration] makes
    of the form state and that [generateProgram] reads. *)
Definition handleConfirmGeneration (numberOfWeeks : Z) (daysOfWeek : list string)
    : ProgramFormData :=
  {| UseWorkout.numberOfWeeks := numberOfWeeks;
     daysPerWeek := Z.of_nat (length daysOfWeek);
     UseWorkout.daysOfWeek := daysOfWeek |}.


(** The number of a day of the selection table. *)
Definition numberOf (day : string) : option Z :=
  number <$> List.find (fun d => String.eqb (value d) day) Tables.daysOfWeek.

End Screens.

(** ** Sample data: payloads on the wire and timelines *)

Module Sample.
Import Js SseClient UseWorkout.

Definition quote : string := String (ascii_of_nat 34) "".

(** A JSON string literal and a member of a JSON object. *)
Definition str (s : string) : string := quote +:+ s +:+ quote.
Definition member (key value : string) : string := str key +:+ ":" +:+ value.

Definition workout1 : StreamingWorkout :=
  {| id := "w1"; title := "Day 1"; body := "Squat 5x5";
     scheduled_date := None; tags := None |}.

(** The text of a [workout_chunk] payload that carries [workout1]. *)
Definition chunkJson : string :=
  "{" +:+ member "type" (str "workout_chunk") +:+ ","
  +:+ member "workout"
        ("{" +:+ member "id" (str "w1") +:+ "," +:+ member "title" (str "Day 1")
         +:+ "," +:+ member "body" (str "Squat 5x5") +:+ "}")
  +:+ "}".

(** The text of an [error] payload. *)
Definition errorJson : string :=
  "{" +:+ member "type" (str "error") +:+ ","
  +:+ member "message" (str "Model overloaded") +:+ "}".

(** [JSON.parse] on the two texts above; it throws on the texts used
    below that are no JSON. *)
Definition parse (text : string) : option Payload :=
  if String.eqb text chunkJson then Some (WorkoutChunk (Some workout1))
  else if String.eqb text errorJson then Some (ErrorPayload (Some "Model overloaded"))
  else None.

(** One frame on the wire. *)
Definition frame (payload : string) : string :=
  "data: " +:+ payload +:+ nl +:+ nl.

Definition formData : ProgramFormData :=
  {| numberOfWeeks := 4; daysPerWeek := 3;
     daysOfWeek := ["Monday"; "Wednesday"; "Friday"] |}.

Definition headers (st : Z) : Occurrence :=
  Delivered [ReadyStateChange HEADERS_RECEIVED st ""].
Definition loading (text : string) : Occurrence :=
  Delivered [ReadyStateChange LOADING 200 text].
(** The end of a response: [readystatechange] to [DONE], then [load]
    (which has no handler). *)
Definition done (text : string) : Occurrence :=
  Delivered [ReadyStateChange DONE 200 text].

(** The server answers 503 to every request. *)
Definition unavailable (n : nat) : Environment :=
  {| access_token := Some "token"; timeline := [headers 503] |}.

(** The server answers 503 to the first request and streams one workout
    twice to the next ones. *)
Definition recovers (n : nat) : Environment :=
  {| access_token := Some "token";
     timeline :=
       match n with
       | O => [headers 503]
       | _ => [headers 200; loading (frame chunkJson);
               done (frame chunkJson +:+ frame chunkJson)]
       end |}.

(** The deadline fires in the middle of the stream, after one workout
    and the start of a second frame. *)
Definition deadline (n : nat) : Environment :=
  {| access_token := Some "token";
     timeline := [headers 200; loading (frame chunkJson +:+ "data: {");
                  TimerFires] |}.

(** The user cancels in the middle of the stream. *)
Definition cancelled (n : nat) : Environment :=
  {| access_token := Some "token";
     timeline := [headers 200; loading (frame chunkJson +:+ "data: {");
                  UserCancel] |}.

(** The server streams an [error] payload and ends the response. *)
Definition inBandError (n : nat) : Environment :=
  {| access_token := Some "token";
     timeline := [headers 200; loading (frame errorJson);
                  done (frame errorJson)] |}.

(** The [error] payload comes with the end of the response. *)
Definition inBandErrorAtEnd (n : nat) : Environment :=
  {| access_token := Some "token";
     timeline := [headers 200; done (frame errorJson)] |}.

(** The request fails after one workout: the platform fires [error]
    on a request whose promise is pending. *)
Definition dropped (n : nat) : Environment :=
  {| access_token := Some "token";
     timeline := [headers 200; loading (frame chunkJson); Delivered [ErrorEvent]] |}.

End Sample.

(* ===================================================================== *)
(** * Part II: properties                                                  *)
(* ===================================================================== *)

(** ** Strings *)

Section JsFacts.
Import Js.
Local Open Scope nat_scope.

Lemma append_cons (c : ascii) (s t : string) :
  String c s +:+ t = String c (s +:+ t).
Proof. reflexivity. Qed.

Lemma append_nil_l (t : string) : "" +:+ t = t.
Proof. reflexivity. Qed.

Lemma append_nil_r (s : string) : s +:+ "" = s.
Proof. induction s as [|c s IH]; [done | by rewrite append_cons, IH]. Qed.

Lemma append_assoc (s t u : string) : (s +:+ t) +:+ u = s +:+ (t +:+ u).
Proof. induction s as [|c s IH]; [done | by rewrite !append_cons, IH]. Qed.

Lemma length_append (s t : string) :
  String.length (s +:+ t) = String.length s + String.length t.
Proof.
  induction s as [|c s IH]; [done|]. rewrite append_cons. simpl. by rewrite IH.
Qed.

Lemma startsWith_length (p s : string) :
  startsWith p s = true -> String.length p <= String.length s.
Proof.
  revert s. induction p as [|a p IH]; intros [|b s]; simpl; try lia; try done.
  destruct (Ascii.eqb a b); [|done]. intros H. apply IH in H. lia.
Qed.

Lemma startsWith_append (p s t : string) :
  startsWith p s = true -> startsWith p (s +:+ t) = true.
Proof.
  revert s. induction p as [|a p IH]; intros [|b s]; rewrite ?append_cons; simpl; try done.
  destruct (Ascii.eqb a b); [apply IH | done].
Qed.

Lemma startsWith_append_false (p s t : string) :
  startsWith p s = false -> String.length p <= String.length s ->
  startsWith p (s +:+ t) = false.
Proof.
  revert s. induction p as [|a p IH]; intros [|b s]; rewrite ?append_cons;
    simpl; try done; try lia.
  destruct (Ascii.eqb a b); [|done]. intros H Hl. apply IH; [done | lia].
Qed.

Lemma substring_append (n : nat) (s t : string) :
  n <= String.length s -> substring n (s +:+ t) = substring n s +:+ t.
Proof.
  revert s. induction n as [|n IH]; intros [|b s]; rewrite ?append_cons;
    simpl; try done; try lia.
  intros H. apply IH. lia.
Qed.

Lemma substring_length (n : nat) (s : string) :
  n <= String.length s -> String.length (substring n s) = String.length s - n.
Proof.
  revert s. induction n as [|n IH]; intros [|b s]; simpl; try done; try lia.
  intros H. apply IH. lia.
Qed.

Lemma find_sep_length (sep s a b : string) :
  find_sep sep s = Some (a, b) ->
  String.length s = String.length a + String.length sep + String.length b.
Proof.
  revert a b. induction s as [|c s IH]; intros a b; simpl.
  - destruct (startsWith sep "") eqn:E; [|done].
    intros [= <- <-]. apply startsWith_length in E. simpl in *.
    destruct sep; simpl in *; [done | lia].
  - destruct (startsWith sep (String c s)) eqn:E.
    + intros [= <- <-]. apply startsWith_length in E.
      rewrite substring_length by done. simpl in *. lia.
    + destruct (find_sep sep s) as [[a' b']|] eqn:F; [|done].
      intros [= <- <-]. specialize (IH _ _ eq_refl). simpl. lia.
Qed.

Lemma find_sep_append (sep s t a b : string) :
  find_sep sep s = Some (a, b) -> find_sep sep (s +:+ t) = Some (a, b +:+ t).
Proof.
  revert a b. induction s as [|c s IH]; intros a b.
  - simpl. destruct (startsWith sep "") eqn:E; [|done].
    intros [= <- <-]. destruct sep; [|done]. simpl.
    destruct t; reflexivity.
  - intros H. pose proof (find_sep_length _ _ _ _ H) as Hl.
    simpl in H. change (String c s +:+ t) with (String c (s +:+ t)).
    cbn [find_sep]. destruct (startsWith sep (String c s)) eqn:E.
    + injection H as <- <-.
      change (String c (s +:+ t)) with (String c s +:+ t).
      rewrite (startsWith_append _ _ _ E).
      rewrite substring_append by (by apply startsWith_length). done.
    + destruct (find_sep sep s) as [[a' b']|] eqn:F; [|done].
      injection H as <- <-.
      change (String c (s +:+ t)) with (String c s +:+ t).
      rewrite startsWith_append_false; [|done|simpl in *; lia].
      by rewrite (IH _ _ eq_refl).
Qed.

Lemma split_fuel_enough (sep : string) (f1 f2 : nat) (s : string) :
  sep <> "" -> String.length s < f1 -> String.length s < f2 ->
  split_fuel f1 sep s = split_fuel f2 sep s.
Proof.
  intros Hsep. revert f2 s.
  induction f1 as [|f1 IH]; intros [|f2] s H1 H2; try lia.
  simpl. destruct (find_sep sep s) as [[a b]|] eqn:F; [|done].
  f_equal. apply find_sep_length in F.
  assert (0 < String.length sep) by (destruct sep; simpl; [done | lia]).
  apply IH; lia.
Qed.

(** The unfolding of [split]: the fuel never runs out. *)
Lemma split_unfold (sep s : string) :
  sep <> "" ->
  split sep s = match find_sep sep s with
                | None => [s]
                | Some (a, b) => a :: split sep b
                end.
Proof.
  intros Hsep. unfold split at 1. simpl.
  destruct (find_sep sep s) as [[a b]|] eqn:F; [|done].
  f_equal. apply find_sep_length in F.
  assert (0 < String.length sep) by (destruct sep; simpl; [done | lia]).
  apply split_fuel_enough; [done | lia | lia].
Qed.

Lemma split_not_nil (sep s : string) : split sep s <> [].
Proof.
  unfold split. simpl. by destruct (find_sep sep s) as [[a b]|].
Qed.

(** A text read in two parts: the complete pieces of the first part stay
    as they are, and its last piece is completed by the second part. *)
Lemma split_append (sep s t : string) :
  sep <> "" ->
  split sep (s +:+ t) =
  removelast (split sep s) ++ split sep (default "" (last (split sep s)) +:+ t).
Proof.
  intros Hsep. remember (String.length s) as n eqn:Hn.
  revert s Hn. induction n as [n IH] using lt_wf_ind. intros s ->.
  rewrite (split_unfold sep s) by done.
  destruct (find_sep sep s) as [[a b]|] eqn:F.
  - rewrite (split_unfold sep (s +:+ t)) by done.
    rewrite (find_sep_append _ _ t _ _ F).
    pose proof (find_sep_length _ _ _ _ F) as Hl.
    assert (0 < String.length sep) by (destruct sep; simpl; [done | lia]).
    rewrite (IH (String.length b)) with (s := b) by (done || lia).
    pose proof (split_not_nil sep b) as Hne.
    destruct (split sep b) as [|x l] eqn:Hb; [done|].
    rewrite last_cons_cons. simpl. done.
  - simpl. done.
Qed.

Lemma split_no_sep (sep s : string) :
  sep <> "" -> find_sep sep s = None -> split sep s = [s].
Proof. intros Hsep F. rewrite split_unfold by done. by rewrite F. Qed.

(** The last piece of a split holds no separator. *)
Lemma last_split_no_sep (sep s : string) :
  sep <> "" -> find_sep sep (default "" (last (split sep s))) = None.
Proof.
  intros Hsep. remember (String.length s) as n eqn:Hn.
  revert s Hn. induction n as [n IH] using lt_wf_ind. intros s ->.
  rewrite split_unfold by done.
  destruct (find_sep sep s) as [[a b]|] eqn:F; [|done].
  pose proof (find_sep_length _ _ _ _ F) as Hl.
  assert (0 < String.length sep) by (destruct sep; simpl; [done | lia]).
  pose proof (split_not_nil sep b) as Hne.
  specialize (IH (String.length b) ltac:(lia) b eq_refl).
  destruct (split sep b) as [|x l] eqn:Hb; [done|].
  by rewrite last_cons_cons.
Qed.

Lemma truthy_false (s : string) : truthy s = false -> s = "".
Proof. by destruct s. Qed.

End JsFacts.

(** ** The frame decoder and parser *)

Section DecoderFacts.
Import Js SseClient.

Lemma nlnl_not_empty : nl +:+ nl <> "".
Proof. done. Qed.

Lemma framesOf_app (l1 l2 : list string) :
  framesOf (l1 ++ l2) = framesOf l1 ++ framesOf l2.
Proof. apply omap_app. Qed.

Lemma removelast_app_last (l1 l2 : list string) :
  l2 <> [] ->
  removelast (l1 ++ l2) = l1 ++ removelast l2
  /\ last (l1 ++ l2) = last l2.
Proof.
  intros Hne. split; [by apply removelast_app|].
  destruct l2 as [|x l2] using rev_ind; [done|].
  by rewrite app_assoc, !last_snoc.
Qed.

(** The decoder on a buffer that holds no delimiter: what it hands over
    and what it keeps are read off the split of the whole text. *)
Lemma decodeChunks_whole (chunks : list string) (buffer : string) :
  find_sep (nl +:+ nl) buffer = None ->
  decodeChunks buffer chunks =
  (framesOf (removelast (split (nl +:+ nl) (buffer +:+ concat chunks))),
   default "" (last (split (nl +:+ nl) (buffer +:+ concat chunks)))).
Proof.
  revert buffer. induction chunks as [|c cs IH]; intros buffer Hb.
  - simpl. rewrite append_nil_r, split_no_sep by done. done.
  - cbn [decodeChunks concat foldr]. destruct (truthy c) eqn:Hc.
    + unfold takeMessages.
      rewrite IH by (apply last_split_no_sep; done).
      fold (concat cs). rewrite <- append_assoc.
      rewrite (split_append _ (buffer +:+ c) (concat cs)) by done.
      destruct (removelast_app_last
                  (removelast (split (nl +:+ nl) (buffer +:+ c)))
                  (split (nl +:+ nl)
                     (default "" (last (split (nl +:+ nl) (buffer +:+ c)))
                      +:+ concat cs))
                  (split_not_nil _ _)) as [-> ->].
      by rewrite framesOf_app.
    + apply truthy_false in Hc as ->. rewrite append_nil_l.
      fold (concat cs). by apply IH.
Qed.

Lemma framesOf_cons (m : string) (ms : list string) :
  framesOf (m :: ms)
  = match (if truthy (trim m) then parseSSEMessage m else None) with
    | Some ev => ev :: framesOf ms
    | None => framesOf ms
    end.
Proof. reflexivity. Qed.

(** The message loop of the handlers, run for the recorder: every
    event of the messages is recorded, in order. *)
Lemma recorder_messages (messages : list string) (c : Client (list Call)) :
  Eff.for_each messages (fun message =>
    Eff.when (truthy (trim message))
      match parseSSEMessage message with
      | Some ev => callback (onMessage recorder ev)
      | None => Eff.ret tt
      end) c
  = (set_caller (caller c ++ (CalledOnMessage <$> framesOf messages)) c,
     Eff.Normal tt).
Proof.
  revert c. induction messages as [|m ms IH]; intros c.
  - cbn. rewrite app_nil_r. by destruct c.
  - cbn [Eff.for_each]. unfold Eff.bind at 1. rewrite framesOf_cons.
    destruct (truthy (trim m)); cbn [Eff.when];
      [destruct (parseSSEMessage m) as [ev|]|]; cbn.
    + rewrite IH. destruct c. cbn. by rewrite <- app_assoc.
    + apply IH.
    + apply IH.
Qed.

(** A [readystatechange] in state [LOADING] on the recorder: the new
    text goes through the decoder, its events are recorded, the rest
    stays in the buffer. *)
Lemma recorder_loading (c : Client (list Call)) (st : Z) (text : string) :
  let newData := substring (lastIndex c) text in
  let c' := dispatch recorder c (ReadyStateChange LOADING st text) in
  caller c' = caller c ++ (CalledOnMessage <$> (decodeChunks (buffer c) [newData]).1)
  /\ buffer c' = (decodeChunks (buffer c) [newData]).2
  /\ lastIndex c' = String.length text.
Proof.
  destruct c as [x b l p r log].
  unfold dispatch, onreadystatechange, Eff.exec, Eff.bind, Eff.gets. cbn.
  destruct (truthy (substring l text)) eqn:Hn; cbn; [|by rewrite app_nil_r].
  rewrite recorder_messages. cbn. by rewrite app_nil_r.
Qed.

Lemma substring_received (received chunk : string) :
  substring (String.length received) (received +:+ chunk) = chunk.
Proof.
  induction received as [|a received IH]; [done|].
  rewrite append_cons. cbn. exact IH.
Qed.

Lemma dispatchAll_cons {S} (o : SSEClientOptions S) (c : Client S)
    (e : XhrEvent) (es : list XhrEvent) :
  dispatchAll o c (e :: es) = dispatchAll o (dispatch o c e) es.
Proof. reflexivity. Qed.

(** The body of a response arriving in chunks, seen from the recorder:
    it gets the events of the decoder fed these chunks. *)
Lemma recorder_arrivals (chunks : list string) (received : string)
    (c : Client (list Call)) :
  lastIndex c = String.length received ->
  caller (dispatchAll recorder c (arrivals received chunks))
  = caller c ++ (CalledOnMessage <$> (decodeChunks (buffer c) chunks).1).
Proof.
  revert received c. induction chunks as [|chunk chunks IH]; intros received c Hl.
  - cbn. by rewrite app_nil_r.
  - cbn [arrivals]. rewrite dispatchAll_cons.
    destruct (recorder_loading c 200 (received +:+ chunk)) as (Hc & Hb & Hi).
    cbv zeta in Hc, Hb, Hi.
    rewrite Hl, substring_received in Hc, Hb.
    rewrite (IH (received +:+ chunk)) by done.
    rewrite Hc, Hb, <- app_assoc. f_equal.
    cbn [decodeChunks]. destruct (truthy chunk) eqn:Ht.
    + destruct (takeMessages (buffer c) chunk) as [messages buffer'] eqn:Htake.
      cbn [fst snd]. rewrite app_nil_r.
      destruct (decodeChunks buffer' chunks) as [events final].
      cbn [fst]. by rewrite fmap_app.
    + by cbn.
Qed.

(** C3. The output of the stream decoder depends only on the
    concatenation of the chunks it is fed. Fed any sequence of chunks from
    an empty buffer, it hands over the same events, in the same order, as
    when the whole text comes in one chunk: the events of the segments that
    a double line feed closes. The text after the last delimiter is not
    handed over, it stays in the buffer. So the POST transport, whatever
    the chunks in which the platform shows it the body, calls [onMessage]
    with these events in this order. *)
Theorem decoder_chunking_invariant (chunks : list string) :
  decodeChunks "" chunks = decodeChunks "" [concat chunks]
  /\ decodeChunks "" chunks =
     (framesOf (removelast (split (nl +:+ nl) (concat chunks))),
      default "" (last (split (nl +:+ nl) (concat chunks))))
  /\ caller (dispatchAll recorder (sent []) (arrivals "" chunks))
     = CalledOnMessage
       <$> framesOf (removelast (split (nl +:+ nl) (concat chunks))).
Proof.
  assert (Hwhole : forall l, decodeChunks "" l =
     (framesOf (removelast (split (nl +:+ nl) (concat l))),
      default "" (last (split (nl +:+ nl) (concat l))))).
  { intros l. rewrite decodeChunks_whole by done. by rewrite append_nil_l. }
  split; [|split; [apply Hwhole|]].
  - rewrite (Hwhole chunks), (Hwhole [concat chunks]).
    cbn [concat foldr]. by rewrite append_nil_r.
  - rewrite recorder_arrivals by done. cbn [sent caller buffer app].
    by rewrite Hwhole.
Qed.

Example decoder_split_inside_delimiter :
  decodeChunks "" ["data: a" +:+ nl; nl +:+ "data: b" +:+ nl +:+ nl +:+ "dat"]
  = ([ {| event := None; data := "a"; id := None; retry := None |};
       {| event := None; data := "b"; id := None; retry := None |} ], "dat").
Proof. reflexivity. Qed.

(** A line that is no [data:] line, or whose value is blank, leaves an
    empty [data] empty. *)
Lemma parseLine_no_data (ev : SSEEvent) (line : string) :
  data ev = "" ->
  (startsWith "data:" line = true -> trim (substring 5 line) = "") ->
  data (parseLine ev line) = "".
Proof.
  intros Hd Hline. unfold parseLine.
  destruct (startsWith "event:" line); [done|].
  destruct (startsWith "data:" line).
  - simpl. rewrite Hd. simpl. by apply Hline.
  - destruct (startsWith "id:" line); [done|].
    destruct (startsWith "retry:" line); [|done].
    by destruct (parseInt10 _).
Qed.

Lemma fold_parseLine_no_data (lines : list string) (ev : SSEEvent) :
  data ev = "" ->
  (forall line, line ∈ lines ->
     startsWith "data:" line = true -> trim (substring 5 line) = "") ->
  data (fold_left parseLine lines ev) = "".
Proof.
  revert ev. induction lines as [|l lines IH]; intros ev Hd Hall; [done|].
  simpl. apply IH.
  - apply parseLine_no_data; [done|]. apply Hall. by left.
  - intros line Hin. apply Hall. by right.
Qed.

(** C8. A raw segment that accumulates no data (none of its lines is a
    [data:] line with a value that is not blank, as in a segment with only
    an [event: ping] line, or only blank or unknown lines) gives no event:
    [parseSSEMessage] returns [null] and the loop over the messages calls
    [onMessage] for nothing of it. *)
Theorem no_data_no_frame (message : string) :
  (forall line, line ∈ split nl message ->
     startsWith "data:" line = true -> trim (substring 5 line) = "") ->
  parseSSEMessage message = None /\ framesOf [message] = [].
Proof.
  intros Hall.
  assert (H : parseSSEMessage message = None).
  { unfold parseSSEMessage. by rewrite fold_parseLine_no_data. }
  split; [done|]. unfold framesOf. simpl. rewrite H. by destruct (truthy _).
Qed.

Lemma no_data_no_frame_ping :
  parseSSEMessage "event: ping" = None /\ framesOf ["event: ping"] = [].
Proof.
  apply (no_data_no_frame "event: ping").
  intros line Hin Hdata. vm_compute in Hin.
  apply list_elem_of_singleton in Hin. subst line. vm_compute in Hdata. done.
Defined.

End DecoderFacts.

(** ** The partial results of one attempt *)

Section PartialResults.
Import Js SseClient UseWorkout.

Lemma firstSeen_ids (ws : list StreamingWorkout) (seen : gset string) :
  NoDup (id <$> firstSeen seen ws)
  /\ (forall i, i ∈ (id <$> firstSeen seen ws) -> i ∉ seen)
  /\ seen ∪ list_to_set (id <$> firstSeen seen ws) = seen ∪ list_to_set (id <$> ws).
Proof.
  revert seen. induction ws as [|w ws IH]; intros seen.
  - simpl. split; [constructor|]. split; [set_solver|done].
  - cbn [firstSeen]. case_bool_decide as Hin.
    + destruct (IH seen) as (Hnd & Hfresh & Hset).
      split; [done|]. split; [done|]. rewrite Hset. set_solver.
    + destruct (IH ({[ id w ]} ∪ seen)) as (Hnd & Hfresh & Hset).
      split; [|split].
      * rewrite fmap_cons. constructor; [|done].
        intros Hw. apply Hfresh in Hw. set_solver.
      * intros i. rewrite fmap_cons, elem_of_cons. intros [->|Hi]; [done|].
        apply Hfresh in Hi. set_solver.
      * rewrite !fmap_cons, !list_to_set_cons.
        rewrite !(assoc_L (∪)), !(comm_L (∪) seen {[ id w ]}).
        exact Hset.
Qed.

Lemma firstSeen_length (ws : list StreamingWorkout) (seen : gset string) :
  (size seen + length (firstSeen seen ws))%nat
  = size (seen ∪ list_to_set (id <$> ws)).
Proof.
  revert seen. induction ws as [|w ws IH]; intros seen.
  - simpl. rewrite (right_id_L ∅ (∪)). lia.
  - cbn [firstSeen]. rewrite fmap_cons, list_to_set_cons.
    case_bool_decide as Hin.
    + rewrite IH. f_equal. set_solver.
    + cbn [length]. rewrite (assoc_L (∪)), (comm_L (∪) seen {[ id w ]}).
      rewrite <- IH. rewrite size_union by set_solver. rewrite size_singleton. lia.
Qed.

(** One [workout_chunk] payload: nothing is thrown; a new identifier is
    added to the set, the workout is appended and the counter is set to
    the size of the set; a known identifier changes nothing. *)
Lemma handlePayload_chunk (w : StreamingWorkout) (a : Attempt) :
  handlePayload (WorkoutChunk (Some w)) a =
  (if bool_decide (id w ∈ processedWorkouts a) then a
   else
     {| hook := setProgress (fun prev =>
                   {| current := Z.of_nat (size ({[ id w ]} ∪ processedWorkouts a));
                      total := total prev |})
                  (addStreamingWorkout w (hook a));
        processedWorkouts := {[ id w ]} ∪ processedWorkouts a;
        timeoutCleared := timeoutCleared a;
        aborted := aborted a |},
   Eff.Normal tt).
Proof.
  unfold handlePayload, Eff.bind, Eff.gets. by case_bool_decide.
Qed.

Lemma deliverChunks_inv (ws : list StreamingWorkout) (a : Attempt) :
  current (progress (hook a)) = Z.of_nat (size (processedWorkouts a)) ->
  exists a',
    deliverChunks ws a = (a', Eff.Normal tt)
    /\ streamingWorkouts (hook a')
       = streamingWorkouts (hook a) ++ firstSeen (processedWorkouts a) ws
    /\ processedWorkouts a' = processedWorkouts a ∪ list_to_set (id <$> ws)
    /\ current (progress (hook a')) = Z.of_nat (size (processedWorkouts a')).
Proof.
  revert a. induction ws as [|w ws IH]; intros a Hc.
  - exists a. simpl. rewrite app_nil_r, (right_id_L ∅ (∪)). done.
  - unfold deliverChunks. rewrite fmap_cons. cbn [Eff.for_each].
    unfold Eff.bind at 1. rewrite handlePayload_chunk.
    cbn [firstSeen]. case_bool_decide as Hin.
    + destruct (IH a Hc) as (a' & Hrun & Hsw & Hset & Hcur).
      exists a'. split; [exact Hrun|]. split; [done|]. split; [|done].
      rewrite Hset. set_solver.
    + match goal with |- context [Eff.for_each _ _ ?b] => set (a1 := b) end.
      destruct (IH a1 eq_refl) as (a' & Hrun & Hsw & Hset & Hcur).
      exists a'. split; [exact Hrun|]. split; [|split; [|done]].
      * rewrite Hsw. subst a1. simpl. by rewrite <- app_assoc.
      * rewrite Hset. subst a1. simpl. set_solver.
Qed.

(** C4. Within one attempt (from an empty set of processed identifiers,
    an empty list of partial results and a counter at zero), after any
    sequence of [workout_chunk] payloads: nothing was thrown; the partial
    results are the deliveries that brought a new identifier, in the order
    they came, so each identifier is there once and a duplicate changed
    nothing; the counter is the number of distinct identifiers delivered,
    which is also the length of the partial results. The sequence is any
    sequence, so this holds after every prefix of a longer one. *)
Theorem partial_results_deduplicated (ws : list StreamingWorkout) (a : Attempt) :
  processedWorkouts a = ∅ ->
  streamingWorkouts (hook a) = [] ->
  current (progress (hook a)) = 0 ->
  exists a',
    deliverChunks ws a = (a', Eff.Normal tt)
    /\ streamingWorkouts (hook a') = firstSeen ∅ ws
    /\ NoDup (id <$> streamingWorkouts (hook a'))
    /\ processedWorkouts a' = list_to_set (id <$> ws)
    /\ current (progress (hook a'))
       = Z.of_nat (size (list_to_set (id <$> ws) : gset string))
    /\ current (progress (hook a'))
       = Z.of_nat (length (streamingWorkouts (hook a'))).
Proof.
  intros Hp Hs Hc.
  destruct (deliverChunks_inv ws a) as (a' & Hrun & Hsw & Hset & Hcur).
  { by rewrite Hp, Hc. }
  rewrite Hp, Hs in Hsw. rewrite Hp, (left_id_L ∅ (∪)) in Hset. simpl in Hsw.
  exists a'. split; [done|]. split; [done|].
  destruct (firstSeen_ids ws ∅) as (Hnd & _ & _).
  pose proof (firstSeen_length ws ∅) as Hlen.
  rewrite size_empty, (left_id_L ∅ (∪)) in Hlen. simpl in Hlen.
  rewrite Hsw. split; [done|]. split; [done|].
  rewrite Hcur, Hset. split; [done|]. by rewrite Hlen.
Qed.

End PartialResults.

(** ** The retry loop of [generateProgram] *)

Section LoopFacts.
Import Js SseClient UseWorkout.
Variable JSON_parse : string -> option Payload.
Variable env : nat -> Environment.
Variable formData : ProgramFormData.
Variable isRegeneration : bool.

Local Abbreviation attempt := (attempt JSON_parse env formData isRegeneration).
Local Abbreviation loop := (loop JSON_parse env formData isRegeneration).
Local Abbreviation generateProgram :=
  (generateProgram JSON_parse env formData isRegeneration).

(** A round waits [RETRY_DELAY] once when it is a retry, and not at all
    when it is the first. *)
Lemma attempt_delays (retryCount : nat) (h : Hook) :
  delays (attempt retryCount h).1.2 = waits retryCount.
Proof.
  unfold UseWorkout.attempt, waits.
  destruct (access_token (env retryCount)) as [token|];
    [destruct (truthy token); simpl|]; try by case_bool_decide.
  destruct (returned _); simpl; unfold delays; rewrite omap_app;
    simpl; rewrite app_nil_r; by case_bool_decide.
Qed.

Lemma delays_app (fx1 fx2 : list Effect) :
  delays (fx1 ++ fx2) = delays fx1 ++ delays fx2.
Proof. apply omap_app. Qed.

(** The fuel [generateProgram] gives the loop is never used up: more
    fuel changes nothing. *)
Lemma loop_fuel (fuel1 fuel2 retryCount : nat) (lastError : option Error)
    (h : Hook) (os : list Outcome) (fx : list Effect) :
  (MAX_RETRIES < retryCount + fuel1)%nat ->
  (MAX_RETRIES < retryCount + fuel2)%nat ->
  loop fuel1 retryCount lastError h os fx = loop fuel2 retryCount lastError h os fx.
Proof.
  revert fuel2 retryCount lastError h os fx.
  induction fuel1 as [|fuel1 IH]; intros fuel2 rc le h os fx H1 H2.
  - destruct fuel2 as [|fuel2]; [done|]. cbn [UseWorkout.loop].
    rewrite bool_decide_eq_false_2 by lia. done.
  - destruct fuel2 as [|fuel2].
    + cbn [UseWorkout.loop]. rewrite bool_decide_eq_false_2 by lia. done.
    + cbn [UseWorkout.loop]. case_bool_decide; [|done].
      destruct (attempt rc h) as [[h' fx'] [n|e|]]; try done.
      destruct (isRetryable e); [|done].
      case_bool_decide; [|done]. apply IH; lia.
Qed.

(** The rounds of the loop, from any round on, go one of the ways of
    [Rounds]. *)
Lemma loop_rounds (fuel retryCount : nat) (lastError : option Error)
    (h : Hook) (os : list Outcome) (fx : list Effect) :
  (retryCount <= MAX_RETRIES)%nat ->
  (MAX_RETRIES < retryCount + fuel)%nat ->
  exists os' fx',
    outcomes (loop fuel retryCount lastError h os fx) = os ++ os'
    /\ effects (loop fuel retryCount lastError h os fx) = fx ++ fx'
    /\ Rounds retryCount os' (delays fx')
         (result (loop fuel retryCount lastError h os fx)).
Proof.
  revert retryCount lastError h os fx.
  induction fuel as [|fuel IH]; intros rc le h os fx Hrc Hfuel; [lia|].
  cbn [UseWorkout.loop]. rewrite bool_decide_eq_true_2 by done.
  pose proof (attempt_delays rc h) as D.
  destruct (attempt rc h) as [[h' fx'] [n|e|]]; cbn [fst snd] in D.
  - exists [Returned n], fx'. cbn. rewrite D. repeat split. by constructor.
  - destruct (isRetryable e) eqn:R.
    + case_bool_decide as Hnext.
      * destruct (IH (S rc) (Some e) h' (os ++ [Thrown e]) (fx ++ fx'))
          as (os'' & fx'' & Ho & Hf & Hr); [done|lia|].
        exists (Thrown e :: os''), (fx' ++ fx'').
        rewrite Ho, Hf, <- !app_assoc. repeat split.
        rewrite delays_app, D. apply rounds_retry; [lia|done|done].
      * exists [Thrown e], fx'. unfold leave, giveUp. cbn. rewrite D.
        repeat split. assert (rc = MAX_RETRIES) as -> by lia.
        by constructor.
    + exists [Thrown e], fx'. unfold leave, giveUp. cbn. rewrite D.
      repeat split. by constructor.
  - exists [Unsettled], fx'. cbn. rewrite D. repeat split. by constructor.
Qed.

Lemma generateProgram_rounds (h : Hook) :
  Rounds 0 (outcomes (generateProgram h)) (delays (effects (generateProgram h)))
    (result (generateProgram h)).
Proof.
  unfold UseWorkout.generateProgram.
  destruct (loop_rounds (S MAX_RETRIES) 0 None (reset h) [] [])
    as (os & fx & -> & -> & H); [lia|lia|]. done.
Qed.

(** C2. A run in which every attempt ends with a retryable error makes
    three attempts, that is two retries, each after a wait of [RETRY_DELAY],
    and resolves with [success: false] and the message of the last error. A
    run whose first attempt ends with a retryable error and whose second
    returns makes these two attempts only, waits [RETRY_DELAY] once between
    them and resolves with [success: true]. The wait is the same constant
    before every retry. *)
Theorem retry_ceiling (h : Hook) :
  let r := generateProgram h in
  (Forall (fun o => exists e, o = Thrown e /\ isRetryable e = true) (outcomes r) ->
   length (outcomes r) = 3%nat
   /\ delays (effects r) = [RETRY_DELAY; RETRY_DELAY]
   /\ exists e, last (outcomes r) = Some (Thrown e)
         /\ result r = Some {| GenerationResult.success := false;
                               GenerationResult.workoutsCreated := 0;
                               GenerationResult.error := Some (message e) |})
  /\ (forall e n,
        outcomes r !! 0%nat = Some (Thrown e) -> isRetryable e = true ->
        outcomes r !! 1%nat = Some (Returned n) ->
        outcomes r = [Thrown e; Returned n]
        /\ delays (effects r) = [RETRY_DELAY]
        /\ result r = Some {| GenerationResult.success := true;
                              GenerationResult.workoutsCreated := n;
                              GenerationResult.error := None |}).
Proof.
  cbv zeta. pose proof (generateProgram_rounds h) as H.
  revert H. generalize (outcomes (generateProgram h)) as os.
  generalize (delays (effects (generateProgram h))) as ds.
  generalize (result (generateProgram h)) as res.
  intros res ds os H. split.
  - intros Hall.
    inversion H as [| | |?|? e1 os1 ds1 ? ? R1 H1]; subst; clear H;
      try (apply Forall_singleton in Hall as (? & [= <-] & ?); congruence);
      try (apply Forall_singleton in Hall as (? & ? & ?); discriminate).
    apply Forall_cons in Hall as (_ & Hall).
    inversion H1 as [| | |?|? e2 os2 ds2 ? ? R2 H2]; subst; clear H1;
      try (apply Forall_singleton in Hall as (? & [= <-] & ?); congruence);
      try (apply Forall_singleton in Hall as (? & ? & ?); discriminate).
    apply Forall_cons in Hall as (_ & Hall).
    inversion H2 as [| | |e3 R3|]; subst; clear H2;
      try (apply Forall_singleton in Hall as (? & [= <-] & ?); congruence);
      try (apply Forall_singleton in Hall as (? & ? & ?); discriminate);
      try (unfold MAX_RETRIES in *; lia).
    split; [done|]. split; [done|]. by exists e3.
  - intros e n H0 He H1.
    inversion H as [| | |?|? e1 os1 ds1 ? ? R1 H2]; subst; clear H;
      try discriminate.
    injection H0 as ->. cbn in H1.
    inversion H2; subst; clear H2; try discriminate;
      try (unfold MAX_RETRIES in *; lia).
    by injection H1 as ->.
Qed.

Lemma rounds_result (retryCount : nat) (os : list Outcome) (ds : list Z)
    (res : GenerationResult.t) :
  Rounds retryCount os ds (Some res) ->
  (GenerationResult.success res = false
   /\ GenerationResult.workoutsCreated res = 0
   /\ exists e, last os = Some (Thrown e)
         /\ GenerationResult.error res = Some (message e))
  \/ (GenerationResult.success res = true
      /\ last os = Some (Returned (GenerationResult.workoutsCreated res))).
Proof.
  remember (Some res) as r eqn:Hr. intros H. revert Hr.
  induction H as [rc n|rc|rc e|e|rc e os ds r ? ? ? IH]; intros Hr;
    try (injection Hr as <-); try discriminate.
  - by right.
  - left. cbn. eauto.
  - left. cbn. eauto.
  - destruct (IH Hr) as [(? & ? & e' & Hl & ?)|(? & Hl)].
    + left. repeat split; try done. exists e'. split; [|done].
      destruct os; [done|]. by rewrite last_cons_cons.
    + right. split; [done|]. destruct os; [done|]. by rewrite last_cons_cons.
Qed.

(** C10. Whenever the promise of [generateProgram] resolves with
    [success: false], [workoutsCreated] is 0 (and the last attempt ended
    with the error reported), whatever the attempts received; the size of
    the set of processed identifiers is reported only with [success: true],
    and it is the size at the return of the last attempt. *)
Theorem failed_run_reports_no_workouts (h : Hook) (res : GenerationResult.t) :
  result (generateProgram h) = Some res ->
  (GenerationResult.success res = false
   /\ GenerationResult.workoutsCreated res = 0
   /\ exists e, last (outcomes (generateProgram h)) = Some (Thrown e)
         /\ GenerationResult.error res = Some (message e))
  \/ (GenerationResult.success res = true
      /\ last (outcomes (generateProgram h))
         = Some (Returned (GenerationResult.workoutsCreated res))).
Proof.
  intros Hres. pose proof (generateProgram_rounds h) as H.
  rewrite Hres in H. by apply rounds_result in H.
Qed.

End LoopFacts.

(** ** The callbacks of the POST transport *)

Section TransportFacts.
Import Js SseClient.

Lemma substring_empty (n : nat) : substring n "" = "".
Proof. by destruct n. Qed.

Lemma digits_lack_abort (d : Decimal.uint) :
  includes "abort" (NilEmpty.string_of_uint d) = false.
Proof. induction d; cbn; done. Qed.

Lemma toString_lacks_abort (n : Z) : includes "abort" (toString n) = false.
Proof.
  unfold toString, NilZero.string_of_int, NilZero.string_of_uint.
  destruct (Z.to_int n) as [d|d]; destruct d; try done;
    cbn; apply digits_lack_abort.
Qed.

(** The message of the error for a status never holds the word the
    [catch] block looks for. *)
Lemma status_message_lacks_abort (n : Z) :
  includes "abort" ("HTTP error! status: " +:+ toString n) = false.
Proof.
  cbv [String.append]. cbn -[toString]. apply toString_lacks_abort.
Qed.

(** On the POST transport, when the headers are received on a call
    whose promises are pending: a status of exactly
    200 makes the transport call [onOpen], once, and nothing else; any other
    status, the other 2xx codes included, makes it call [onError] with the
    error that names the status, and not [onOpen]. When the signal aborts a
    request in flight the transport calls [onClose] and not [onError], and
    the returned promise is fulfilled. *)
Theorem post_transport_open_or_error (c : Client (list Call)) (st : Z) (text : string) :
  promise c = Pending -> returned c = Pending ->
  (st = 200 ->
   caller (step recorder c (Events [ReadyStateChange HEADERS_RECEIVED st text]))
   = caller c ++ [CalledOnOpen])
  /\ (st <> 200 ->
      caller (step recorder c (Events [ReadyStateChange HEADERS_RECEIVED st text]))
      = caller c ++ [CalledOnError (new_Error ("HTTP error! status: " +:+ toString st))])
  /\ (inFlight (readyState (xhr c)) = true ->
      exists calls,
        caller (step recorder c SignalAbort) = caller c ++ calls
        /\ CalledOnClose ∈ calls
        /\ (forall e, CalledOnError e ∉ calls)
        /\ returned (step recorder c SignalAbort) = Fulfilled).
Proof.
  destruct c as [x b l p r log]. cbn. intros -> ->. split; [|split].
  - intros ->. reflexivity.
  - intros Hst. apply Z.eqb_neq in Hst.
    unfold step, dispatchAll, dispatch, onreadystatechange, Eff.exec, Eff.bind,
      Eff.gets. cbn. rewrite Hst. cbn.
    unfold resume. cbn. rewrite status_message_lacks_abort. reflexivity.
  - intros Hfl. unfold step, xhr_abort. cbn. rewrite Hfl.
    unfold dispatchAll, dispatch, onreadystatechange, Eff.exec, Eff.bind,
      Eff.gets. cbn. rewrite substring_empty. cbn.
    exists [CalledOnClose; CalledOnClose]. rewrite <- app_assoc. cbn.
    split; [done|]. split; [by left|]. split; [|done].
    intros e He. by repeat (apply elem_of_cons in He as [?|He]; [done|]);
      apply elem_of_nil in He.
Qed.

Lemma post_transport_open_or_error_sent :
  (200 = 200 ->
   caller (step recorder (sent []) (Events [ReadyStateChange HEADERS_RECEIVED 200 ""]))
   = caller (sent []) ++ [CalledOnOpen])
  /\ (200 <> 200 ->
      caller (step recorder (sent []) (Events [ReadyStateChange HEADERS_RECEIVED 200 ""]))
      = caller (sent [])
        ++ [CalledOnError (new_Error ("HTTP error! status: " +:+ toString 200))])
  /\ (inFlight (readyState (xhr (sent ([] : list Call)))) = true ->
      exists calls,
        caller (step recorder (sent []) SignalAbort) = caller (sent []) ++ calls
        /\ CalledOnClose ∈ calls
        /\ (forall e, CalledOnError e ∉ calls)
        /\ returned (step recorder (sent []) SignalAbort) = Fulfilled).
Proof.
  apply (post_transport_open_or_error (sent []) 200 ""); reflexivity.
Defined.

(** 204 is a 2xx status, and on it the POST transport calls [onError]
    and never [onOpen]. *)
Lemma post_transport_no_open_on_204 :
  ok 204 = true
  /\ caller (createSSEClientWithPost recorder
               [Events [ReadyStateChange HEADERS_RECEIVED 204 ""]] [])
     = [CalledOnError (new_Error "HTTP error! status: 204")].
Proof. split; reflexivity. Qed.

(** After the rejection the request is left running: what it delivers
    later still reaches the callbacks. *)
Example post_transport_calls_after_error :
  caller (createSSEClientWithPost recorder
            [Events [ReadyStateChange HEADERS_RECEIVED 503 ""];
             Events [ReadyStateChange LOADING 503 (Sample.frame "busy")];
             Events [ReadyStateChange DONE 503 (Sample.frame "busy")]] [])
  = [CalledOnError (new_Error "HTTP error! status: 503");
     CalledOnMessage {| event := None; data := "busy"; id := None; retry := None |};
     CalledOnClose].
Proof. reflexivity. Qed.

(** The GET transport on a status that is not 2xx: [onError] with the
    status and no other callback. *)
Lemma get_transport_error (st : Z) (body : option Body) (log : list Call) :
  ok st = false ->
  createSSEClient recorder (Response st body) log
  = (log ++ [CalledOnError (new_Error ("HTTP error! status: " +:+ toString st))],
     Eff.Normal tt).
Proof.
  intros Hok. unfold createSSEClient, Eff.try_catch. rewrite Hok. reflexivity.
Qed.

(** The GET transport on a 2xx status without a body: no [onOpen]. *)
Example get_transport_no_body :
  createSSEClient recorder (Response 200 None) []
  = ([CalledOnError (new_Error "Response body is null")], Eff.Normal tt).
Proof. reflexivity. Qed.

(** C7, on the code. The POST transport breaks the contract in two
    ways, where the GET transport keeps it. On every 2xx status other than
    200 it calls [onError] with the status and never [onOpen], while the
    GET transport calls [onOpen]. And after the [onError] of a status that
    is not 2xx it does not stop: the request is left running, and what it
    delivers afterwards still reaches [onMessage] and [onClose], while the
    GET transport makes no further call. *)
Theorem post_transport_breaks_status_contract :
  (forall st, ok st = true -> st <> 200 ->
     caller (createSSEClientWithPost recorder
               [Events [ReadyStateChange HEADERS_RECEIVED st ""]] [])
     = [CalledOnError (new_Error ("HTTP error! status: " +:+ toString st))]
     /\ createSSEClient recorder (Response st (Some BodyDone)) []
        = ([CalledOnOpen; CalledOnClose], Eff.Normal tt))
  /\ (ok 204 = true
      /\ caller (createSSEClientWithPost recorder
                   [Events [ReadyStateChange HEADERS_RECEIVED 204 ""];
                    Events [ReadyStateChange DONE 204 ""]] [])
         = [CalledOnError (new_Error "HTTP error! status: 204"); CalledOnClose]
      /\ createSSEClient recorder (Response 204 (Some BodyDone)) []
         = ([CalledOnOpen; CalledOnClose], Eff.Normal tt))
  /\ (ok 503 = false
      /\ caller (createSSEClientWithPost recorder
                   [Events [ReadyStateChange HEADERS_RECEIVED 503 ""];
                    Events [ReadyStateChange LOADING 503 (Sample.frame "busy")];
                    Events [ReadyStateChange DONE 503 (Sample.frame "busy")]] [])
         = [CalledOnError (new_Error "HTTP error! status: 503");
            CalledOnMessage {| event := None; data := "busy"; id := None;
                               retry := None |};
            CalledOnClose]
      /\ createSSEClient recorder
           (Response 503 (Some (BodyChunk (Sample.frame "busy") BodyDone))) []
         = ([CalledOnError (new_Error "HTTP error! status: 503")], Eff.Normal tt)).
Proof.
  split; [|split; [repeat split; reflexivity|repeat split; reflexivity]].
  intros st Hok Hst. split.
  - destruct (post_transport_open_or_error (sent []) st "" eq_refl eq_refl)
      as (_ & Herr & _).
    exact (Herr Hst).
  - unfold createSSEClient, Eff.try_catch. rewrite Hok. reflexivity.
Qed.

End TransportFacts.

(** ** Aborting the request of an attempt *)

Section AbortFacts.
Import Js SseClient UseWorkout.
Variable JSON_parse : string -> option Payload.

(** Whatever the attempt has received, when the deadline fires or the
    user cancels while the request is in flight and the promises are
    pending, the promise that [generateProgram] awaits is fulfilled: the
    attempt returns as one that went well. *)
Lemma aborted_request_is_fulfilled (c : Client Attempt) (o : Occurrence) :
  promise c = Pending -> returned c = Pending ->
  inFlight (readyState (xhr c)) = true ->
  aborted (caller c) = false ->
  (o = TimerFires /\ timeoutCleared (caller c) = false)
  \/ (o = UserCancel /\ is_Some (abortControllerRef (hook (caller c)))) ->
  returned (occur JSON_parse c o) = Fulfilled
  /\ processedWorkouts (caller (occur JSON_parse c o)) = processedWorkouts (caller c).
Proof.
  destruct c as [x b l p r [h pw tc ab]]. cbn. intros -> -> Hfl -> Ho.
  assert (Habort :
    let c' := controller_abort JSON_parse
                {| xhr := x; buffer := b; lastIndex := l; promise := Pending;
                   returned := Pending;
                   caller := {| hook := h; processedWorkouts := pw;
                                timeoutCleared := tc; aborted := false |} |} in
    promise c' = Fulfilled /\ returned c' = Pending
    /\ processedWorkouts (caller c') = pw).
  { unfold controller_abort, xhr_abort. cbn. rewrite Hfl.
    unfold dispatchAll, dispatch, onreadystatechange, Eff.exec, Eff.bind,
      Eff.gets. cbn. rewrite substring_empty. cbn. done. }
  cbv zeta in Habort. revert Habort.
  destruct Ho as [[-> Htc]|[-> [k Hk]]]; unfold occur, cancel;
    cbn -[controller_abort] in *; subst; rewrite ?Hk;
    match goal with
    | |- context [controller_abort ?f ?c] => generalize (controller_abort f c)
    end;
    intros [x' b' l' p' r' [h' pw' tc' ab']]; cbn; by intros (-> & -> & ->).
Qed.

End AbortFacts.

(** ** The weekdays of the request *)

Section WeekdayFacts.
Import Js ProgramConfig UseWorkout.

Lemma toUpperChar_toLowerChar (c : ascii) :
  toUpperChar (toLowerChar c) = toUpperChar c.
Proof. by destruct c as [[] [] [] [] [] [] [] []]. Qed.

Lemma toLowerChar_idem (c : ascii) : toLowerChar (toLowerChar c) = toLowerChar c.
Proof. by destruct c as [[] [] [] [] [] [] [] []]. Qed.

Lemma toLowerCase_idem (s : string) : toLowerCase (toLowerCase s) = toLowerCase s.
Proof.
  induction s as [|c s IH]; [done|].
  unfold toLowerCase in *. cbn. by rewrite toLowerChar_idem, IH.
Qed.

(** The capitalized form of a name depends on its letters only, not on
    their case. *)
Lemma capitalized_toLowerCase (day : string) :
  capitalized (toLowerCase day) = capitalized day.
Proof.
  destruct day as [|c day]; [done|].
  unfold capitalized. cbn [toLowerCase map_chars charAt0 substring].
  fold toLowerCase. rewrite toLowerCase_idem.
  unfold toUpperCase. cbn [map_chars]. by rewrite toUpperChar_toLowerChar.
Qed.

Lemma dayNameToNumber_properties (key : string) (p : Property) :
  dayNameToNumber key = Some p -> (key, p) ∈ properties.
Proof.
  unfold dayNameToNumber, dayNames. cbn [list_to_map foldr fst snd].
  repeat (rewrite lookup_insert; case_decide;
          [intros [= <-]; subst key; vm_compute; set_solver|]).
  rewrite lookup_empty. case_bool_decide as Hin; [|done].
  intros [= <-]. unfold properties. apply elem_of_app. right.
  apply list_elem_of_fmap. by exists key.
Qed.

Lemma dayNames_weekdays (name : string) (n : Z) :
  dayNames !! name = Some n ->
  (name, n) ∈ [("Sunday", 0); ("Monday", 1); ("Tuesday", 2); ("Wednesday", 3);
               ("Thursday", 4); ("Friday", 5); ("Saturday", 6)].
Proof.
  unfold dayNames. cbn [list_to_map foldr fst snd].
  repeat (rewrite lookup_insert; case_decide;
          [intros [= <-]; subst name; set_solver|]).
  by rewrite lookup_empty.
Qed.

(** Matching is case-insensitive: a name that differs from a weekday
    name by the case of its letters only gets the number of that weekday. *)
Lemma weekday_case_insensitive (day name : string) (n : Z) :
  dayNames !! name = Some n ->
  toLowerCase day = toLowerCase name ->
  dayToNumber day = Some (Number n).
Proof.
  intros Hname Hlow. unfold dayToNumber.
  assert (Hcap : capitalized day = name).
  { rewrite <- capitalized_toLowerCase, Hlow, capitalized_toLowerCase.
    apply dayNames_weekdays in Hname.
    repeat (apply elem_of_cons in Hname as [[= -> ->]|Hname]; [done|]).
    by apply elem_of_nil in Hname. }
  assert (Hkey : dayNameToNumber name = Some (Number n)).
  { unfold dayNameToNumber. by rewrite Hname. }
  destruct day as [|c day].
  { apply dayNames_weekdays in Hname.
    repeat (apply elem_of_cons in Hname as [[= -> ->]|Hname]; [done|]).
    by apply elem_of_nil in Hname. }
  cbn [truthy negb]. rewrite Hcap, Hkey.
  destruct (dayNameToNumber (String c day)) as [p|] eqn:Hexact; [|done].
  f_equal. apply dayNameToNumber_properties in Hexact.
  apply dayNames_weekdays in Hname. clear Hcap Hkey.
  unfold properties in Hexact. cbn in Hexact.
  repeat (apply elem_of_cons in Hexact as [[= Hd ->]|Hexact];
          [rewrite Hd in Hlow;
           repeat (apply elem_of_cons in Hname as [[= -> ->]|Hname];
                   [first [done | by vm_compute in Hlow]|]);
           by apply elem_of_nil in Hname|]).
  by apply elem_of_nil in Hexact.
Qed.

(** When the [filter] keeps nothing, the days of the request are
    Monday, Wednesday and Friday. *)
Lemma default_schedule (days : list string) :
  Forall (fun day => dayToNumber day = None) days ->
  daysOfWeekNumbers days = [Number 1; Number 3; Number 5].
Proof.
  intros Hall. unfold daysOfWeekNumbers.
  assert (omap dayToNumber days = []) as ->; [|done].
  induction Hall as [|day days Hday _ IH]; [done|].
  cbn. by rewrite Hday.
Qed.

Example weekdays_normalized :
  daysOfWeekNumbers ["monday"; "FRIDAY"; "Funday"; "sATURDAY"; ""]
  = [Number 1; Number 5; Number 6]
  /\ daysOfWeekNumbers [] = [Number 1; Number 3; Number 5]
  /\ daysOfWeekNumbers ["Funday"; "mon"; " Monday"] = [Number 1; Number 3; Number 5].
Proof. vm_compute. done. Qed.

End WeekdayFacts.

(** ** Runs on the sample timelines *)

Section Runs.
Import Js SseClient UseWorkout.

Lemma partial_results_same_payload_twice :
  exists a',
    deliverChunks [Sample.workout1; Sample.workout1]
      {| hook := initial; processedWorkouts := ∅;
         timeoutCleared := false; aborted := false |}
    = (a', Eff.Normal tt)
    /\ streamingWorkouts (hook a')
       = firstSeen ∅ [Sample.workout1; Sample.workout1]
    /\ NoDup (id <$> streamingWorkouts (hook a'))
    /\ processedWorkouts a'
       = list_to_set (id <$> [Sample.workout1; Sample.workout1])
    /\ current (progress (hook a'))
       = Z.of_nat (size (list_to_set (id <$> [Sample.workout1; Sample.workout1])
                         : gset string))
    /\ current (progress (hook a'))
       = Z.of_nat (length (streamingWorkouts (hook a'))).
Proof.
  apply (partial_results_deduplicated [Sample.workout1; Sample.workout1]);
    reflexivity.
Defined.

(** The same payload delivered twice: one partial result, counter at 1. *)
Example same_payload_twice :
  let a := Eff.exec (deliverChunks [Sample.workout1; Sample.workout1])
             {| hook := initial; processedWorkouts := ∅;
                timeoutCleared := false; aborted := false |} in
  length (streamingWorkouts (hook a)) = 1%nat
  /\ current (progress (hook a)) = 1.
Proof. vm_compute. done. Qed.

Lemma retry_ceiling_on_samples :
  (let r := generateProgram Sample.parse Sample.unavailable Sample.formData false initial in
   length (outcomes r) = 3%nat
   /\ delays (effects r) = [RETRY_DELAY; RETRY_DELAY]
   /\ exists e, last (outcomes r) = Some (Thrown e)
         /\ result r = Some {| GenerationResult.success := false;
                               GenerationResult.workoutsCreated := 0;
                               GenerationResult.error := Some (message e) |})
  /\ (let r := generateProgram Sample.parse Sample.recovers Sample.formData false initial in
      outcomes r = [Thrown (new_Error "HTTP error! status: 503"); Returned 1]
      /\ delays (effects r) = [RETRY_DELAY]
      /\ result r = Some {| GenerationResult.success := true;
                            GenerationResult.workoutsCreated := 1;
                            GenerationResult.error := None |}).
Proof.
  split.
  - apply (proj1 (retry_ceiling Sample.parse Sample.unavailable Sample.formData
                    false initial)).
    vm_compute. repeat constructor; eexists; split; reflexivity.
  - apply (proj2 (retry_ceiling Sample.parse Sample.recovers Sample.formData
                    false initial));
      reflexivity.
Defined.

Lemma failed_run_reports_no_workouts_dropped :
  (GenerationResult.success
     {| GenerationResult.success := false; GenerationResult.workoutsCreated := 0;
        GenerationResult.error := Some "Network error" |} = false
   /\ GenerationResult.workoutsCreated
        {| GenerationResult.success := false; GenerationResult.workoutsCreated := 0;
           GenerationResult.error := Some "Network error" |} = 0
   /\ exists e,
        last (outcomes (generateProgram Sample.parse Sample.dropped
                          Sample.formData false initial)) = Some (Thrown e)
        /\ GenerationResult.error
             {| GenerationResult.success := false; GenerationResult.workoutsCreated := 0;
                GenerationResult.error := Some "Network error" |} = Some (message e))
  \/ (GenerationResult.success
        {| GenerationResult.success := false; GenerationResult.workoutsCreated := 0;
           GenerationResult.error := Some "Network error" |} = true
      /\ last (outcomes (generateProgram Sample.parse Sample.dropped
                           Sample.formData false initial))
         = Some (Returned
                   (GenerationResult.workoutsCreated
                      {| GenerationResult.success := false;
                         GenerationResult.workoutsCreated := 0;
                         GenerationResult.error := Some "Network error" |}))).
Proof.
  apply (failed_run_reports_no_workouts Sample.parse Sample.dropped
           Sample.formData false initial).
  reflexivity.
Defined.

(** In that run the last attempt had received a workout when it failed:
    the hook shows it, the result does not count it. *)
Example dropped_run_counts_nothing :
  let r := generateProgram Sample.parse Sample.dropped Sample.formData false initial in
  result r = Some {| GenerationResult.success := false;
                     GenerationResult.workoutsCreated := 0;
                     GenerationResult.error := Some "Network error" |}
  /\ current (progress (final r)) = 1
  /\ length (streamingWorkouts (final r)) = 1%nat.
Proof. vm_compute. done. Qed.

(** C1, on the code. The deadline fires in the middle of a stream:
    the timer aborts the request, the transport calls [onClose] and its
    promise is fulfilled, and [generateProgram] takes the attempt for done.
    It resolves with [success: true] after one attempt, without a retry,
    in stage [complete]. *)
Theorem deadline_resolves_as_success :
  let r := generateProgram Sample.parse Sample.deadline Sample.formData false initial in
  result r = Some {| GenerationResult.success := true;
                     GenerationResult.workoutsCreated := 1;
                     GenerationResult.error := None |}
  /\ outcomes r = [Returned 1]
  /\ delays (effects r) = []
  /\ stage (final r) = complete.
Proof. vm_compute. done. Qed.

(** C5, on the code. The user cancels in the middle of a stream: the
    transport calls [onClose] twice (from [onreadystatechange] at [DONE] and
    from [onabort]), no [onMessage] nor [onError] after the cancellation,
    and the promise of [generateProgram] resolves with [success: true]; the
    stage ends as [complete], over the [idle] that [cancel] had set. *)
Theorem cancel_resolves_as_success :
  let r := generateProgram Sample.parse Sample.cancelled Sample.formData false initial in
  result r = Some {| GenerationResult.success := true;
                     GenerationResult.workoutsCreated := 1;
                     GenerationResult.error := None |}
  /\ stage (final r) = complete
  /\ error (final r) = Some "Generation cancelled"
  /\ caller (createSSEClientWithPost recorder
               [Events [ReadyStateChange HEADERS_RECEIVED 200 ""];
                Events [ReadyStateChange LOADING 200
                          (Sample.frame Sample.chunkJson +:+ "data: {")];
                SignalAbort] [])
     = [CalledOnOpen;
        CalledOnMessage {| event := None; data := Sample.chunkJson;
                           SseClient.id := None; retry := None |};
        CalledOnClose; CalledOnClose].
Proof. vm_compute. done. Qed.

(** C6, on the code. An [error] payload makes [onMessage] throw inside
    [xhr.onreadystatechange], which the event loop calls: the exception
    settles no promise. When the response then ends, the attempt returns
    and [generateProgram] resolves with [success: true]; when the payload
    comes with the end of the response, the exception also skips [resolve]
    and the promise is never settled. *)
Theorem in_band_error_is_lost :
  (let r := generateProgram Sample.parse Sample.inBandError Sample.formData false initial in
   result r = Some {| GenerationResult.success := true;
                      GenerationResult.workoutsCreated := 0;
                      GenerationResult.error := None |}
   /\ outcomes r = [Returned 0]
   /\ stage (final r) = complete)
  /\ (let r := generateProgram Sample.parse Sample.inBandErrorAtEnd Sample.formData
                 false initial in
      result r = None /\ outcomes r = [Unsettled]).
Proof. vm_compute. done. Qed.

(** An exception of [onMessage] also ends the loop over the messages
    of the read: a workout that comes in the same read after the [error]
    payload is lost, one that comes in a later read is not. *)
Example error_payload_skips_rest_of_read :
  let together (n : nat) :=
    {| access_token := Some "token";
       timeline :=
         [Sample.headers 200;
          Sample.loading (Sample.frame Sample.errorJson +:+ Sample.frame Sample.chunkJson);
          Sample.done (Sample.frame Sample.errorJson +:+ Sample.frame Sample.chunkJson)] |} in
  let apart (n : nat) :=
    {| access_token := Some "token";
       timeline :=
         [Sample.headers 200;
          Sample.loading (Sample.frame Sample.errorJson);
          Sample.loading (Sample.frame Sample.errorJson +:+ Sample.frame Sample.chunkJson);
          Sample.done (Sample.frame Sample.errorJson +:+ Sample.frame Sample.chunkJson)] |} in
  outcomes (generateProgram Sample.parse together Sample.formData false initial)
  = [Returned 0]
  /\ outcomes (generateProgram Sample.parse apart Sample.formData false initial)
     = [Returned 1].
Proof. vm_compute. done. Qed.

(** The GET transport calls [onMessage] inside its own [try]: there
    the same exception reaches [onError]. *)
Example get_transport_error_payload_reaches_onError :
  let throwing : SSEClientOptions (list Call) :=
    {| SseClient.onMessage := fun ev => Eff.throw (new_Error (data ev));
       onError := Some (fun e => record (CalledOnError e));
       onOpen := None; onClose := None |} in
  createSSEClient throwing
    (Response 200 (Some (BodyChunk (Sample.frame "boom") BodyDone))) []
  = ([CalledOnError (new_Error "boom")], Eff.Normal tt).
Proof. reflexivity. Qed.

(** C9, on the code. The name [constructor] is no weekday, and yet
    it is not dropped: the object [dayNameToNumber] inherits a member of
    that name, which passes the test against [undefined]. The list is then
    not empty and the default schedule is not used. *)
Theorem inherited_name_is_kept :
  ProgramConfig.dayNames !! "constructor" = None
  /\ days_of_week
       (requestBody {| numberOfWeeks := 4; daysPerWeek := 3;
                       daysOfWeek := ["constructor"] |} false)
     = [ProgramConfig.Inherited "constructor"].
Proof. vm_compute. done. Qed.

End Runs.

(** ** What [parseSSEMessage] keeps of a message *)

Section ParserFacts.
Import Js SseClient Frames.

Lemma startsWith_exclusive (a b : ascii) (p q line : string) :
  startsWith (String a p) line = true ->
  startsWith (String b q) line = true -> a = b.
Proof.
  destruct line as [|c line]; [done|]. cbn.
  destruct (Ascii.eqb_spec a c) as [->|]; [|done].
  destruct (Ascii.eqb_spec b c) as [->|]; done.
Qed.

(** The four kinds of line exclude each other, so a line changes one
    field at most. *)
Lemma parseLine_fields (ev : SSEEvent) (line : string) :
  event (parseLine ev line) = from_option Some (event ev) (fieldValue "event:" line)
  /\ data (parseLine ev line)
     = match fieldValue "data:" line with
       | Some v => if truthy (data ev) then data ev +:+ nl +:+ v else v
       | None => data ev
       end
  /\ id (parseLine ev line) = from_option Some (id ev) (fieldValue "id:" line)
  /\ retry (parseLine ev line) = from_option Some (retry ev) (retryValue line).
Proof.
  unfold parseLine, retryValue, fieldValue.
  destruct (startsWith "event:" line) eqn:E1, (startsWith "data:" line) eqn:E2,
    (startsWith "id:" line) eqn:E3, (startsWith "retry:" line) eqn:E4;
    try (by pose proof (startsWith_exclusive _ _ _ _ _ E1 E2));
    try (by pose proof (startsWith_exclusive _ _ _ _ _ E1 E3));
    try (by pose proof (startsWith_exclusive _ _ _ _ _ E1 E4));
    try (by pose proof (startsWith_exclusive _ _ _ _ _ E2 E3));
    try (by pose proof (startsWith_exclusive _ _ _ _ _ E2 E4));
    try (by pose proof (startsWith_exclusive _ _ _ _ _ E3 E4));
    cbn; try done.
  by destruct (parseInt10 _).
Qed.

Lemma omap_cons_unfold {A B} (f : A -> option B) (x : A) (l : list A) :
  omap f (x :: l) = match f x with Some y => y :: omap f l | None => omap f l end.
Proof. reflexivity. Qed.

Lemma joinLines_cons (v : string) (rest : list string) :
  joinLines (v :: rest) = v +:+ concat ((fun w => nl +:+ w) <$> rest).
Proof.
  revert v. induction rest as [|w rest IH]; intros v.
  - cbn. by rewrite append_nil_r.
  - change (joinLines (v :: w :: rest)) with (v +:+ nl +:+ joinLines (w :: rest)).
    rewrite IH, fmap_cons. cbn [concat foldr]. by rewrite append_assoc.
Qed.

Lemma truthy_append (s t : string) : truthy s = true -> truthy (s +:+ t) = true.
Proof. by destruct s. Qed.

Lemma fold_parseLine_data (lines : list string) (ev : SSEEvent) :
  data (fold_left parseLine lines ev)
  = if truthy (data ev)
    then data ev +:+ concat ((fun w => nl +:+ w) <$> omap (fieldValue "data:") lines)
    else joinLines (dropEmpty (omap (fieldValue "data:") lines)).
Proof.
  revert ev. induction lines as [|line lines IH]; intros ev.
  - cbn. destruct (truthy (data ev)) eqn:Hd; [by rewrite append_nil_r|].
    by apply truthy_false in Hd.
  - cbn [fold_left]. rewrite IH, omap_cons_unfold.
    destruct (parseLine_fields ev line) as (_ & -> & _).
    destruct (fieldValue "data:" line) as [v|]; [|done].
    destruct (truthy (data ev)) eqn:Hd.
    + rewrite truthy_append by done. rewrite fmap_cons. cbn [concat foldr].
      by rewrite !append_assoc.
    + cbn [dropEmpty]. destruct (truthy v) eqn:Hv; [|done].
      by rewrite joinLines_cons.
Qed.

Lemma dropEmpty_head (values : list string) :
  match dropEmpty values with
  | [] => True
  | v :: _ => truthy v = true
  end.
Proof.
  induction values as [|v values IH]; [done|].
  cbn. by destruct (truthy v) eqn:Hv.
Qed.

(** X1. The [data] of a message is made of the values of its [data:] lines,
    in order, joined by line feeds, without the empty values that come
    before the first one that is not empty; the lines of the other fields
    have no part in it. A message gives an event exactly when one of these
    values is not empty. *)
Theorem message_data (message : string) :
  let values := dropEmpty (omap (fieldValue "data:") (split nl message)) in
  match parseSSEMessage message with
  | Some ev => data ev = joinLines values /\ values <> []
  | None => values = []
  end.
Proof.
  cbv zeta. unfold parseSSEMessage.
  pose proof (fold_parseLine_data (split nl message)
                {| event := None; data := ""; id := None; retry := None |}) as H.
  cbn [data truthy] in H.
  pose proof (dropEmpty_head (omap (fieldValue "data:") (split nl message))) as Hh.
  destruct (dropEmpty (omap (fieldValue "data:") (split nl message)))
    as [|v rest] eqn:Hv.
  - rewrite H. done.
  - rewrite H. rewrite joinLines_cons, truthy_append by done.
    split; [|done]. by rewrite H, joinLines_cons.
Qed.

Example two_data_lines :
  data <$> parseSSEMessage ("data: foo" +:+ nl +:+ "id: 7" +:+ nl +:+ "data: bar")
  = Some ("foo" +:+ nl +:+ "bar").
Proof. reflexivity. Qed.

Lemma last_cons_or {A} (v : A) (rest : list A) :
  last (v :: rest) = from_option Some (Some v) (last rest).
Proof.
  destruct rest as [|w rest]; [done|]. rewrite last_cons_cons.
  destruct (last (w :: rest)) eqn:Hl; [done|].
  by apply last_None in Hl.
Qed.

Lemma fold_parseLine_fields (lines : list string) (ev : SSEEvent) :
  event (fold_left parseLine lines ev)
  = from_option Some (event ev) (last (omap (fieldValue "event:") lines))
  /\ id (fold_left parseLine lines ev)
     = from_option Some (id ev) (last (omap (fieldValue "id:") lines))
  /\ retry (fold_left parseLine lines ev)
     = from_option Some (retry ev) (last (omap retryValue lines)).
Proof.
  revert ev. induction lines as [|line lines IH]; intros ev; [done|].
  cbn [fold_left]. destruct (IH (parseLine ev line)) as (-> & -> & ->).
  rewrite !omap_cons_unfold.
  destruct (parseLine_fields ev line) as (-> & _ & -> & ->).
  repeat split.
  - destruct (fieldValue "event:" line); [|reflexivity]. rewrite last_cons_or.
    destruct (last (omap (fieldValue "event:") lines)); reflexivity.
  - destruct (fieldValue "id:" line); [|reflexivity]. rewrite last_cons_or.
    destruct (last (omap (fieldValue "id:") lines)); reflexivity.
  - destruct (retryValue line); [|reflexivity]. rewrite last_cons_or.
    destruct (last (omap retryValue lines)); reflexivity.
Qed.

(** X2. Of several [event:] or [id:] lines of a message the last one
    wins, and a field without such a line is absent. The field [retry] is
    absent exactly when no [retry:] line has a value that [parseInt] makes
    a number of: a line whose value is no integer neither sets the field
    nor clears what an earlier line set. When the last [retry:] line with
    an integer has one of magnitude at most 2^53, where [parseInt] is
    exact, [retry] is that integer. *)
Theorem message_fields (message : string) (ev : SSEEvent) :
  parseSSEMessage message = Some ev ->
  let lines := split nl message in
  event ev = last (omap (fieldValue "event:") lines)
  /\ id ev = last (omap (fieldValue "id:") lines)
  /\ (retry ev = None <-> omap retryValue lines = [])
  /\ (forall n, last (omap retryValue lines) = Some n ->
                Z.abs n <= 9007199254740992 ->
                retry ev = Some n).
Proof.
  unfold parseSSEMessage. destruct (truthy _); [|done]. intros [= <-].
  cbv zeta.
  destruct (fold_parseLine_fields (split nl message)
              {| event := None; data := ""; id := None; retry := None |})
    as (-> & -> & ->).
  cbn [event id retry].
  split; [by destruct (last (omap (fieldValue "event:") (split nl message)))|].
  split; [by destruct (last (omap (fieldValue "id:") (split nl message)))|].
  split.
  - rewrite <- last_None.
    by destruct (last (omap retryValue (split nl message))).
  - intros n Hn _. by rewrite Hn.
Qed.

Lemma message_fields_sample :
  parseSSEMessage ("event: a" +:+ nl +:+ "retry: 5" +:+ nl +:+ "event: b" +:+ nl
                   +:+ "retry: soon" +:+ nl +:+ "data: x")
  = Some {| event := Some "b"; data := "x"; id := None; retry := Some 5 |}
  /\ last (omap retryValue
             (split nl ("event: a" +:+ nl +:+ "retry: 5" +:+ nl +:+ "event: b" +:+ nl
                        +:+ "retry: soon" +:+ nl +:+ "data: x"))) = Some 5
  /\ Z.abs 5 <= 9007199254740992
  /\ retry {| event := Some "b"; data := "x"; id := None; retry := Some 5 |}
     = Some 5.
Proof.
  split; [reflexivity|]. split; [reflexivity|]. split; [lia|].
  apply (message_fields
           ("event: a" +:+ nl +:+ "retry: 5" +:+ nl +:+ "event: b" +:+ nl
            +:+ "retry: soon" +:+ nl +:+ "data: x")
           {| event := Some "b"; data := "x"; id := None; retry := Some 5 |}
           eq_refl);
    [reflexivity|lia].
Defined.

End ParserFacts.

(** ** What the handlers of the POST transport keep *)

Section HandlerFacts.
Import Js SseClient.
Context {S : Type} (options : SSEClientOptions S).

(** A relation between the call before and after, that every step of
    the handlers respects. *)
Variable R : Client S -> Client S -> Prop.
Hypothesis R_refl : forall c, R c c.
Hypothesis R_trans : forall c1 c2 c3, R c1 c2 -> R c2 c3 -> R c1 c3.
Hypothesis R_xhr : forall x c, R c (set_xhr x c).
Hypothesis R_lastIndex : forall n c, R c (set_lastIndex n c).
Hypothesis R_buffer :
  forall text c, R c (set_buffer (takeMessages (buffer c) text).2 c).
Hypothesis R_settle : forall p c, R c (Eff.exec (settle p) c).
Hypothesis R_onOpen :
  forall c, R c (Eff.exec (callback (optional (onOpen options))) c).
Hypothesis R_onClose :
  forall c, R c (Eff.exec (callback (optional (onClose options))) c).
Hypothesis R_onMessage :
  forall ev c, R c (Eff.exec (callback (onMessage options ev)) c).

Local Open Scope eff_scope.

Lemma respects_bind {A B} (m : Eff.t (Client S) A) (k : A -> Eff.t (Client S) B) :
  (forall c, R c (Eff.exec m c)) ->
  (forall a c, R c (Eff.exec (k a) c)) ->
  forall c, R c (Eff.exec (Eff.bind m k) c).
Proof.
  intros Hm Hk c. unfold Eff.exec, Eff.bind in *.
  specialize (Hm c). destruct (m c) as [c' [a|e]]; [|done].
  eapply R_trans; [exact Hm|apply Hk].
Qed.

Lemma respects_when (b : bool) (m : Eff.t (Client S) unit) :
  (forall c, R c (Eff.exec m c)) ->
  forall c, R c (Eff.exec (Eff.when b m) c).
Proof. intros Hm c. destruct b; [apply Hm|apply R_refl]. Qed.

Lemma respects_for_each {A} (l : list A) (body : A -> Eff.t (Client S) unit) :
  (forall x c, R c (Eff.exec (body x) c)) ->
  forall c, R c (Eff.exec (Eff.for_each l body) c).
Proof.
  intros Hb. induction l as [|x l IH]; intros c; [apply R_refl|].
  cbn [Eff.for_each]. apply respects_bind; [apply Hb|]. intros _. apply IH.
Qed.

Lemma respects_onabort (c : Client S) : R c (Eff.exec (onabort options) c).
Proof.
  revert c. unfold onabort.
  apply respects_bind; [apply R_onClose|]. intros _ c. apply R_settle.
Qed.

Lemma respects_onreadystatechange (c : Client S) :
  R c (Eff.exec (onreadystatechange options) c).
Proof.
  revert c. unfold onreadystatechange.
  apply respects_bind; [intros c; apply R_refl|]. intros x.
  destruct (same (readyState x) HEADERS_RECEIVED && negb (status x =? 200));
    [intros c; apply R_settle|].
  apply respects_bind; [apply respects_when, R_onOpen|]. intros _.
  apply respects_bind.
  - apply respects_when. apply respects_bind; [intros c; apply R_refl|].
    intros l. apply respects_bind; [intros c; apply R_lastIndex|]. intros _.
    apply respects_when. intros c.
    unfold Eff.exec, Eff.bind at 1, Eff.gets at 1. cbn [fst snd].
    pose proof (R_buffer (substring l (responseText x)) c) as Hb.
    destruct (takeMessages (buffer c) (substring l (responseText x)))
      as [messages buf'] eqn:Ht. cbn [snd] in Hb.
    unfold Eff.bind at 1, Eff.modify at 1.
    eapply R_trans; [exact Hb|].
    apply (respects_for_each messages). intros message.
    apply respects_when. destruct (parseSSEMessage message);
      [apply R_onMessage|intros c'; apply R_refl].
  - intros _. apply respects_when.
    apply respects_bind; [apply R_onClose|]. intros _ c. apply R_settle.
Qed.

Lemma respects_dispatch (c : Client S) (e : XhrEvent) : R c (dispatch options c e).
Proof.
  destruct e as [rs st text| |]; cbn [dispatch].
  - eapply R_trans; [apply R_xhr|apply respects_onreadystatechange].
  - apply R_settle.
  - apply respects_onabort.
Qed.

Lemma respects_dispatchAll (es : list XhrEvent) (c : Client S) :
  R c (dispatchAll options c es).
Proof.
  revert c. induction es as [|e es IH]; intros c; [apply R_refl|].
  cbn. eapply R_trans; [apply respects_dispatch|apply IH].
Qed.

Lemma respects_xhr_abort (c : Client S) : R c (xhr_abort options c).
Proof.
  unfold xhr_abort. destruct (inFlight _); [apply respects_dispatchAll|apply R_refl].
Qed.

End HandlerFacts.
(** ** The POST transport over any timeline *)

Section PostTransportFacts.
Import Js SseClient Frames.
Local Open Scope eff_scope.

Lemma callback_state {S A} (m : Eff.t S A) (c : Client S) :
  Eff.exec (callback m) c = set_caller (m (caller c)).1 c.
Proof. unfold Eff.exec, callback, Eff.zoom. by destruct (m (caller c)). Qed.

Lemma settle_state {S} (p : Promise) (c : Client S) :
  Eff.exec (settle p) c
  = match promise c with Pending => set_promise p c | _ => c end.
Proof. done. Qed.

Lemma includes_find_sep (sep s : string) :
  includes sep s = match find_sep sep s with Some _ => true | None => false end.
Proof.
  induction s as [|a s IH]; cbn [includes find_sep].
  - by destruct (startsWith sep "").
  - destruct (startsWith sep (String a s)); [done|].
    cbn [orb]. rewrite IH. by destruct (find_sep sep s) as [[x y]|].
Qed.

Lemma takeMessages_buffer (buf text : string) :
  includes (nl +:+ nl) (takeMessages buf text).2 = false.
Proof.
  rewrite includes_find_sep. unfold takeMessages. cbn [snd].
  by rewrite last_split_no_sep.
Qed.

Lemma resume_buffer {S} (options : SSEClientOptions S) (c : Client S) :
  buffer (resume options c) = buffer c.
Proof.
  unfold resume. destruct (returned c); [|done..].
  destruct (promise c) as [| |e]; [done..|].
  by destruct (_ (caller c)) as [s r].
Qed.

Lemma step_buffer {S} (options : SSEClientOptions S) (c : Client S) (x : Stimulus) :
  includes (nl +:+ nl) (buffer c) = false ->
  includes (nl +:+ nl) (buffer (step options c x)) = false.
Proof.
  unfold step. rewrite resume_buffer. revert c.
  set (R := fun c c' : Client S =>
              includes (nl +:+ nl) (buffer c) = false ->
              includes (nl +:+ nl) (buffer c') = false).
  assert (Hrefl : forall c, R c c) by (intros c; unfold R; auto).
  assert (Htrans : forall c1 c2 c3, R c1 c2 -> R c2 c3 -> R c1 c3)
    by (unfold R; auto).
  assert (Hcb : forall A (m : Eff.t S A) c, R c (Eff.exec (callback m) c))
    by (intros A m c; unfold R; by rewrite callback_state).
  assert (Hd : forall es c, R c (dispatchAll options c es)).
  { intros es c. apply respects_dispatchAll; try done.
    - intros text c' _. apply takeMessages_buffer.
    - intros p c'. unfold R. rewrite settle_state. by destruct (promise c'). }
  intros c. destruct x as [es|]; [apply Hd|].
  unfold xhr_abort. destruct (inFlight _); [apply Hd|apply Hrefl].
Qed.

(** X3. The variable [buffer] of a call never holds a blank line: what is
    left in it after a read is the text after the last delimiter. *)
Theorem post_buffer_holds_no_delimiter {S} (options : SSEClientOptions S)
    (timeline : list Stimulus) (s : S) :
  includes (nl +:+ nl) (buffer (createSSEClientWithPost options timeline s)) = false.
Proof.
  unfold createSSEClientWithPost.
  assert (H : includes (nl +:+ nl) (buffer (sent s)) = false) by done.
  revert H. generalize (sent s).
  induction timeline as [|x timeline IH]; intros c H; [done|].
  cbn [fold_left]. apply IH. by apply step_buffer.
Qed.

(** The handlers do not touch the promise the call returned. *)
Lemma dispatchAll_returned {S} (options : SSEClientOptions S)
    (es : list XhrEvent) (c : Client S) :
  returned (dispatchAll options c es) = returned c.
Proof.
  apply (respects_dispatchAll options (fun c c' => returned c' = returned c));
    try done.
  - intros c1 c2 c3 H1 H2. congruence.
  - intros p c'. rewrite settle_state. by destruct (promise c').
  - intros c'. by rewrite callback_state.
  - intros c'. by rewrite callback_state.
  - intros ev c'. by rewrite callback_state.
Qed.

Lemma xhr_abort_returned {S} (options : SSEClientOptions S) (c : Client S) :
  returned (xhr_abort options c) = returned c.
Proof.
  unfold xhr_abort. destruct (inFlight _); [apply dispatchAll_returned|done].
Qed.

(** The catch block is the only place the returned promise can be
    rejected from. *)
Lemma resume_not_rejected {S} (options : SSEClientOptions S) (c : Client S) :
  (forall f e s, onError options = Some f -> exists s', f e s = (s', Eff.Normal tt)) ->
  (forall f s, onClose options = Some f -> exists s', f s = (s', Eff.Normal tt)) ->
  (forall e, returned c <> Rejected e) ->
  forall e, returned (resume options c) <> Rejected e.
Proof.
  intros HE HC H e. unfold resume.
  destruct (returned c) eqn:Hr; [|by rewrite Hr..].
  destruct (promise c) as [| |error]; [by rewrite Hr|done|].
  destruct (_ || _).
  - destruct (onClose options) as [f|] eqn:Hf; cbn [optional]; [|done].
    by destruct (HC f (caller c) eq_refl) as [s' ->].
  - destruct (onError options) as [f|] eqn:Hf; [|done].
    by destruct (HE f error (caller c) eq_refl) as [s' ->].
Qed.

(** X5. When [onError] and [onClose] return, the promise of
    [createSSEClientWithPost] is never rejected, whatever happens to the
    request and whatever [onOpen] and [onMessage] do. *)
Theorem post_never_rejects {S} (options : SSEClientOptions S)
    (timeline : list Stimulus) (s : S) (e : Error) :
  (forall f e s, onError options = Some f -> exists s', f e s = (s', Eff.Normal tt)) ->
  (forall f s, onClose options = Some f -> exists s', f s = (s', Eff.Normal tt)) ->
  returned (createSSEClientWithPost options timeline s) <> Rejected e.
Proof.
  intros HE HC. unfold createSSEClientWithPost. revert e.
  assert (H : forall e, returned (sent s) <> Rejected e) by done.
  revert H. generalize (sent s).
  induction timeline as [|x timeline IH]; intros c H; [done|].
  cbn [fold_left]. apply IH. unfold step.
  apply resume_not_rejected; [done..|].
  destruct x; [rewrite dispatchAll_returned|rewrite xhr_abort_returned]; done.
Qed.

Lemma post_never_rejects_recorder :
  returned (createSSEClientWithPost recorder
              [Events [ReadyStateChange HEADERS_RECEIVED 503 ""]] [])
  <> Rejected (new_Error "HTTP error! status: 503").
Proof.
  apply post_never_rejects.
  - intros f e s [= <-]. by eexists.
  - intros f s [= <-]. by eexists.
Defined.

Lemma errorCalls_app (log : list Call) (k : Call) :
  errorCalls (log ++ [k]) = (errorCalls log + if isErrorCall k then 1 else 0)%nat.
Proof.
  unfold errorCalls. rewrite List.filter_app, length_app. cbn [List.filter].
  by destruct (isErrorCall k).
Qed.

Lemma recorder_dispatchAll_errorCalls (es : list XhrEvent) (c : Client (list Call)) :
  errorCalls (caller (dispatchAll recorder c es)) = errorCalls (caller c).
Proof.
  apply (respects_dispatchAll recorder
           (fun c c' => errorCalls (caller c') = errorCalls (caller c)));
    try done.
  - intros c1 c2 c3 H1 H2. congruence.
  - intros p c'. rewrite settle_state. by destruct (promise c').
  - intros c'. rewrite callback_state. cbn -[errorCalls]. rewrite errorCalls_app. cbn -[errorCalls]. lia.
  - intros c'. rewrite callback_state. cbn -[errorCalls]. rewrite errorCalls_app. cbn -[errorCalls]. lia.
  - intros ev c'. rewrite callback_state. cbn -[errorCalls]. rewrite errorCalls_app. cbn -[errorCalls]. lia.
Qed.

Lemma recorder_step_errorCalls (c : Client (list Call)) (x : Stimulus) :
  match returned c with
  | Pending => errorCalls (caller c) = 0%nat
  | _ => (errorCalls (caller c) <= 1)%nat
  end ->
  match returned (step recorder c x) with
  | Pending => errorCalls (caller (step recorder c x)) = 0%nat
  | _ => (errorCalls (caller (step recorder c x)) <= 1)%nat
  end.
Proof.
  unfold step.
  set (c' := match x with Events es => _ | SignalAbort => _ end).
  assert (Hr : returned c' = returned c).
  { destruct x; [apply dispatchAll_returned|apply xhr_abort_returned]. }
  assert (He : errorCalls (caller c') = errorCalls (caller c)).
  { destruct x; [apply recorder_dispatchAll_errorCalls|].
    unfold c', xhr_abort. destruct (inFlight _);
      [apply recorder_dispatchAll_errorCalls|done]. }
  rewrite <- Hr, <- He. clearbody c'. clear. intros H. unfold resume.
  destruct (returned c') eqn:E; [|by rewrite E..].
  destruct (promise c') as [| |error]; [by rewrite E|cbn -[errorCalls]; lia|].
  destruct (_ || _); cbn -[errorCalls]; rewrite errorCalls_app; cbn -[errorCalls]; lia.
Qed.

(** X6. A caller that records its callbacks gets [onError] at most once
    in a call of [createSSEClientWithPost], and not while the promise of
    the call is pending. *)
Theorem post_at_most_one_onError (timeline : list Stimulus) :
  let c := createSSEClientWithPost recorder timeline [] in
  (errorCalls (caller c) <= 1)%nat
  /\ (returned c = Pending -> errorCalls (caller c) = 0%nat).
Proof.
  cbn zeta. unfold createSSEClientWithPost.
  assert (H : match returned (sent (S:=list Call) []) with
              | Pending => errorCalls (caller (sent (S:=list Call) [])) = 0%nat
              | _ => (errorCalls (caller (sent (S:=list Call) [])) <= 1)%nat
              end) by done.
  revert H. generalize (sent (S:=list Call) []).
  induction timeline as [|x timeline IH]; intros c H.
  - cbn [fold_left]. destruct (returned c); split; (done || lia).
  - cbn [fold_left]. apply IH. by apply recorder_step_errorCalls.
Qed.

Lemma substring_all (s : string) : substring (String.length s) s = "".
Proof. by induction s. Qed.

Lemma recorder_loading_state (c : Client (list Call)) (st : Z) (text : string) :
  let c' := dispatch recorder c (ReadyStateChange LOADING st text) in
  promise c' = promise c /\ returned c' = returned c.
Proof.
  destruct c as [x b l p r log].
  unfold dispatch, onreadystatechange, Eff.exec, Eff.bind, Eff.gets. cbn.
  destruct (truthy (substring l text)) eqn:Hn; cbn; [|done].
  rewrite recorder_messages. by cbn.
Qed.

(** While the promise is pending the continuation of the call does
    not run. *)
Lemma resume_pending {S} (options : SSEClientOptions S) (c : Client S) :
  promise c = Pending -> resume options c = c.
Proof. intros H. unfold resume. rewrite H. by destruct (returned c). Qed.

Lemma recorder_arrivals_state (chunks : list string) (received : string)
    (c : Client (list Call)) :
  lastIndex c = String.length received ->
  promise c = Pending ->
  let c' := fold_left (step recorder)
              ((fun e => Events [e]) <$> arrivals received chunks) c in
  c' = dispatchAll recorder c (arrivals received chunks)
  /\ promise c' = Pending
  /\ returned c' = returned c
  /\ lastIndex c' = String.length (received +:+ concat chunks)
  /\ buffer c' = (decodeChunks (buffer c) chunks).2.
Proof.
  revert received c. induction chunks as [|chunk chunks IH]; intros received c Hl Hp.
  - cbn. by rewrite append_nil_r.
  - cbn [arrivals fmap list_fmap fold_left]. rewrite dispatchAll_cons.
    destruct (recorder_loading c 200 (received +:+ chunk)) as (_ & Hb & Hi).
    destruct (recorder_loading_state c 200 (received +:+ chunk)) as (Hp' & Hr').
    cbv zeta in Hb, Hi, Hp', Hr'.
    rewrite Hl, substring_received in Hb.
    assert (Hs : step recorder c (Events [ReadyStateChange LOADING 200 (received +:+ chunk)])
                 = dispatch recorder c (ReadyStateChange LOADING 200 (received +:+ chunk))).
    { unfold step. cbn [dispatchAll fold_left]. apply resume_pending. congruence. }
    rewrite Hs.
    destruct (IH (received +:+ chunk) _ Hi ltac:(congruence)) as (E & P & Rr & L & B).
    cbv zeta in E, P, Rr, L, B.
    repeat split; [done|done|congruence| |].
    + rewrite L. cbn [concat foldr]. fold (concat chunks). by rewrite append_assoc.
    + rewrite B, Hb. cbn [decodeChunks]. destruct (truthy chunk) eqn:Ht.
      * destruct (takeMessages (buffer c) chunk) as [messages buffer'].
        cbn [snd]. by destruct (decodeChunks buffer' chunks).
      * by cbn.
Qed.

Lemma recorder_done (c : Client (list Call)) (text : string) :
  lastIndex c = String.length text ->
  promise c = Pending ->
  returned c = Pending ->
  let c' := step recorder c (Events [ReadyStateChange DONE 200 text]) in
  caller c' = caller c ++ [CalledOnClose]
  /\ returned c' = Fulfilled
  /\ buffer c' = buffer c.
Proof.
  destruct c as [x b l p r log]. cbn [lastIndex promise returned].
  intros -> -> ->.
  unfold step, dispatchAll, fold_left, dispatch, onreadystatechange, Eff.exec,
    Eff.bind, Eff.gets.
  cbn. by rewrite substring_all.
Qed.

(** The calls of a whole response with status 200, in terms of the
    decoder. *)
Lemma recorder_streamed (chunks : list string) :
  let c := createSSEClientWithPost recorder (streamed chunks) [] in
  caller c
  = [CalledOnOpen] ++ (CalledOnMessage <$> (decodeChunks "" chunks).1)
    ++ [CalledOnClose]
  /\ returned c = Fulfilled
  /\ buffer c = (decodeChunks "" chunks).2.
Proof.
  cbn zeta. unfold createSSEClientWithPost, streamed.
  cbn [fold_left]. rewrite fold_left_app. cbn [fold_left].
  set (c1 := step recorder (sent []) _).
  assert (H1 : c1 = {| xhr := {| readyState := HEADERS_RECEIVED; status := 200;
                                 responseText := "" |};
                       buffer := ""; lastIndex := 0; promise := Pending;
                       returned := Pending; caller := [CalledOnOpen] |})
    by reflexivity.
  clearbody c1.
  destruct (recorder_arrivals_state chunks "" c1) as (E & P & Rr & L & B);
    [by subst..|].
  cbv zeta in E, P, Rr, L, B.
  pose proof (recorder_arrivals chunks "" c1 ltac:(by subst)) as Hc.
  rewrite <- E in Hc. rewrite append_nil_l in L.
  destruct (recorder_done _ (concat chunks) L P ltac:(by subst)) as (C & F & Bf).
  cbv zeta in C, F, Bf. rewrite C, F, Bf, Hc, B. subst c1. cbn [caller buffer].
  by rewrite <- app_assoc.
Qed.

(** X7. A response with status 200 whose body arrives in any chunks and
    then ends: the caller gets [onOpen], then the events of the segments
    that a blank line closes, then [onClose], and the promise is
    fulfilled. The text after the last blank line is never handed over:
    it is still in the buffer when the call ends. *)
Theorem post_stream_delivered (chunks : list string) :
  let c := createSSEClientWithPost recorder (streamed chunks) [] in
  caller c
  = [CalledOnOpen]
    ++ (CalledOnMessage
        <$> framesOf (removelast (split (nl +:+ nl) (concat chunks))))
    ++ [CalledOnClose]
  /\ returned c = Fulfilled
  /\ buffer c = default "" (last (split (nl +:+ nl) (concat chunks))).
Proof.
  cbv zeta. destruct (recorder_streamed chunks) as (Hc & Hr & Hb).
  cbv zeta in Hc, Hr, Hb. rewrite Hc, Hr, Hb.
  rewrite decodeChunks_whole by done. rewrite append_nil_l. cbn [fst snd].
  done.
Qed.

Example post_stream_unfinished_frame :
  caller (createSSEClientWithPost recorder
            (streamed ["data: a" +:+ nl +:+ nl +:+ "data: b"]) [])
  = [CalledOnOpen;
     CalledOnMessage {| event := None; data := "a"; SseClient.id := None;
                        retry := None |};
     CalledOnClose].
Proof. reflexivity. Qed.

End PostTransportFacts.

(** ** The GET transport *)

Section GetTransportFacts.
Import Js SseClient Frames.
Local Open Scope eff_scope.

Lemma recorder_frames (messages : list string) (log : list Call) :
  Eff.for_each messages (fun message =>
    Eff.when (truthy (trim message))
      match parseSSEMessage message with
      | Some ev => onMessage recorder ev
      | None => Eff.ret tt
      end) log
  = (log ++ (CalledOnMessage <$> framesOf messages), Eff.Normal tt).
Proof.
  revert log. induction messages as [|m ms IH]; intros log.
  - cbn. by rewrite app_nil_r.
  - cbn [Eff.for_each]. unfold Eff.bind at 1. rewrite framesOf_cons.
    destruct (truthy (trim m)); cbn [Eff.when];
      [destruct (parseSSEMessage m) as [ev|]|]; cbn.
    + rewrite IH. by rewrite <- app_assoc.
    + apply IH.
    + apply IH.
Qed.

(** The read loop on the recorder: the chunks go through the decoder,
    a failing read ends the loop with its error. An empty chunk changes
    nothing, as the buffer holds no delimiter. *)
Lemma recorder_readLoop (body : Body) (buffer : string) (log : list Call) :
  find_sep (nl +:+ nl) buffer = None ->
  readLoop recorder buffer body log
  = (log ++ (CalledOnMessage <$> (decodeChunks buffer (chunksOf body)).1),
     match failureOf body with
     | None => Eff.Normal tt
     | Some e => Eff.Throw e
     end).
Proof.
  revert buffer log. induction body as [|text rest IH|e]; intros buffer log Hb.
  - cbn. by rewrite app_nil_r.
  - cbn [readLoop chunksOf failureOf decodeChunks].
    destruct (truthy text) eqn:Ht.
    + pose proof (last_split_no_sep (nl +:+ nl) (buffer +:+ text) nlnl_not_empty)
        as Hlast.
      destruct (takeMessages buffer text) as [messages buffer'] eqn:Htake.
      unfold takeMessages in Htake. injection Htake as <- <-.
      unfold Eff.bind. rewrite recorder_frames. rewrite IH by done.
      destruct (decodeChunks _ (chunksOf rest)) as [events final].
      cbn [fst]. by rewrite fmap_app, app_assoc.
    + apply truthy_false in Ht as ->. unfold takeMessages.
      rewrite append_nil_r, split_no_sep by done. cbn [removelast last default].
      unfold Eff.bind. cbn [Eff.for_each Eff.ret]. by apply IH.
  - cbn. by rewrite app_nil_r.
Qed.

(** The calls of the GET transport on a 2xx response with a body, in
    terms of the decoder. *)
Lemma recorder_fetched (st : Z) (body : Body) (log : list Call) :
  ok st = true ->
  createSSEClient recorder (Response st (Some body)) log
  = (log ++ [CalledOnOpen]
         ++ (CalledOnMessage <$> (decodeChunks "" (chunksOf body)).1)
         ++ [CalledOnClose]
         ++ match failureOf body with
            | None => []
            | Some e => if String.eqb (name e) "AbortError"
                        then [CalledOnClose] else [CalledOnError e]
            end,
     Eff.Normal tt).
Proof.
  intros Hok. unfold createSSEClient, Eff.try_catch. rewrite Hok. cbn [negb].
  unfold Eff.bind at 1. cbn [optional onOpen onClose recorder record Eff.modify].
  unfold Eff.try_finally. rewrite recorder_readLoop by done.
  generalize (CalledOnMessage <$> (decodeChunks "" (chunksOf body)).1).
  intros frames.
  destruct (failureOf body) as [e|]; cbn.
  - destruct (String.eqb (name e) "AbortError");
      unfold record, Eff.modify; f_equal; rewrite <- !app_assoc; reflexivity.
  - f_equal. rewrite <- !app_assoc. reflexivity.
Qed.

(** X8. A response with a 2xx status and a body, read by the GET
    transport: the caller gets [onOpen], the events of the segments of the
    whole text that a blank line closes, whatever the chunks it was read
    in, and [onClose]. When a read fails, the error comes after that:
    [onClose] a second time for an [AbortError], [onError] for another
    error. The promise is fulfilled in every case. *)
Theorem get_stream_delivered (st : Z) (body : Body) (log : list Call) :
  ok st = true ->
  createSSEClient recorder (Response st (Some body)) log
  = (log ++ [CalledOnOpen]
         ++ (CalledOnMessage
             <$> framesOf (removelast (split (nl +:+ nl) (concat (chunksOf body)))))
         ++ [CalledOnClose]
         ++ match failureOf body with
            | None => []
            | Some e => if String.eqb (name e) "AbortError"
                        then [CalledOnClose] else [CalledOnError e]
            end,
     Eff.Normal tt).
Proof.
  intros Hok. rewrite recorder_fetched by done.
  rewrite decodeChunks_whole by done. by rewrite append_nil_l.
Qed.

Lemma get_stream_delivered_two_reads :
  createSSEClient recorder
    (Response 200
       (Some (BodyChunk ("data: a" +:+ nl)
                (BodyChunk (nl +:+ "data: b")
                   (BodyFails {| name := "AbortError"; message := "Aborted" |})))))
    []
  = ([CalledOnOpen;
      CalledOnMessage {| event := None; data := "a"; SseClient.id := None;
                         retry := None |};
      CalledOnClose; CalledOnClose],
     Eff.Normal tt).
Proof. apply (get_stream_delivered 200). reflexivity. Defined.

(** X9. When [onError] and [onClose] return, the promise of
    [createSSEClient] is fulfilled, whatever [fetch] and the reads give and
    whatever [onOpen] and [onMessage] do: what they throw goes to
    [onError]. *)
Theorem get_never_rejects {S} (options : SSEClientOptions S) (fetched : Fetched)
    (s : S) :
  (forall f e s, onError options = Some f -> exists s', f e s = (s', Eff.Normal tt)) ->
  (forall f s, onClose options = Some f -> exists s', f s = (s', Eff.Normal tt)) ->
  exists s', createSSEClient options fetched s = (s', Eff.Normal tt).
Proof.
  intros HE HC. unfold createSSEClient, Eff.try_catch.
  destruct (_ s) as [s1 [[]|e]]; [by eexists|].
  destruct (String.eqb (name e) "AbortError").
  - destruct (onClose options) as [f|] eqn:Hf; [by apply HC|by eexists].
  - destruct (onError options) as [f|] eqn:Hf; [by apply HE|by eexists].
Qed.

Lemma get_never_rejects_recorder :
  exists log,
    createSSEClient recorder (FetchRejects (new_Error "Network request failed")) []
    = (log, Eff.Normal tt).
Proof.
  apply get_never_rejects.
  - intros f e s [= <-]. by eexists.
  - intros f s [= <-]. by eexists.
Defined.

Lemma chunksOf_bodyOf (chunks : list string) :
  chunksOf (bodyOf chunks) = chunks /\ failureOf (bodyOf chunks) = None.
Proof.
  induction chunks as [|c chunks [IH1 IH2]]; [done|].
  unfold bodyOf in *. cbn [foldr chunksOf failureOf]. by rewrite IH1.
Qed.

(** X10. On a response with status 200 whose body arrives in the same
    chunks and ends, the two transports make the same calls to the caller,
    and both fulfil their promise. *)
Theorem transports_agree_on_stream (chunks : list string) :
  let post := createSSEClientWithPost recorder (streamed chunks) [] in
  let get := createSSEClient recorder (Response 200 (Some (bodyOf chunks))) [] in
  caller post = get.1
  /\ returned post = Fulfilled
  /\ get.2 = Eff.Normal tt.
Proof.
  cbv zeta. destruct (recorder_streamed chunks) as (Hc & Hr & _).
  cbv zeta in Hc, Hr. rewrite Hc, Hr.
  rewrite (recorder_fetched 200) by done.
  destruct (chunksOf_bodyOf chunks) as [-> ->]. cbn [fst snd].
  split; [|done]. by rewrite app_nil_r.
Qed.

End GetTransportFacts.

(** ** The shape of every run of [generateProgram] *)

Section RunFacts.
Import Js SseClient UseWorkout.
Variable JSON_parse : string -> option Payload.
Variable env : nat -> Environment.
Variable formData : ProgramFormData.
Variable isRegeneration : bool.

Local Abbreviation attempt := (attempt JSON_parse env formData isRegeneration).
Local Abbreviation loop := (loop JSON_parse env formData isRegeneration).
Local Abbreviation generateProgram :=
  (generateProgram JSON_parse env formData isRegeneration).

Lemma rounds_shape (retryCount : nat) (os : list Outcome) (ds : list Z)
    (res : option GenerationResult.t) :
  Rounds retryCount os ds res ->
  (1 <= length os)%nat
  /\ (retryCount + length os <= S MAX_RETRIES)%nat
  /\ Forall (fun o => exists e, o = Thrown e /\ isRetryable e = true) (removelast os)
  /\ ds = waits retryCount ++ replicate (length os - 1) RETRY_DELAY.
Proof.
  induction 1 as [rc n Hrc|rc Hrc|rc e Hrc He|e He|rc e os ds res Hrc He H IH];
    try (cbn [length removelast]; rewrite app_nil_r;
         repeat split; (lia || constructor)).
  destruct IH as (Hlen & Hbound & Hall & ->).
  destruct os as [|o os]; [cbn in Hlen; lia|].
  repeat split.
  - cbn. lia.
  - cbn [length] in *. lia.
  - change (removelast (Thrown e :: o :: os))
      with (Thrown e :: removelast (o :: os)).
    constructor; [by exists e|done].
  - unfold waits at 2. rewrite bool_decide_eq_true_2 by lia.
    cbn [length]. replace (S (S (length os)) - 1)%nat with (S (length os)) by lia.
    replace (S (length os) - 1)%nat with (length os) by lia. done.
Qed.

(** X11. Every run makes at least one attempt and at most three; every
    attempt but the last ended with a retryable error; and the run waited
    [RETRY_DELAY] once before each attempt after the first, and at no other
    time. *)
Theorem run_shape (h : Hook) :
  let r := generateProgram h in
  (1 <= length (outcomes r) <= S MAX_RETRIES)%nat
  /\ Forall (fun o => exists e, o = Thrown e /\ isRetryable e = true)
       (removelast (outcomes r))
  /\ delays (effects r) = replicate (length (outcomes r) - 1) RETRY_DELAY.
Proof.
  cbv zeta. destruct (rounds_shape _ _ _ _ (generateProgram_rounds JSON_parse env formData isRegeneration h))
    as (H1 & H2 & H3 & H4).
  repeat split; try done; lia.
Qed.

Lemma rounds_stop (retryCount : nat) (os : list Outcome) (ds : list Z)
    (res : option GenerationResult.t) (i : nat) (e : Error) :
  Rounds retryCount os ds res ->
  os !! i = Some (Thrown e) ->
  isRetryable e = false ->
  length os = S i
  /\ res = Some {| GenerationResult.success := false;
                   GenerationResult.workoutsCreated := 0;
                   GenerationResult.error := Some (message e) |}.
Proof.
  intros H. revert i.
  induction H as [rc n Hrc|rc Hrc|rc e' Hrc He|e' He|rc e' os ds res Hrc He H IH];
    intros [|i] Hi Hfatal; try done; cbn in Hi.
  - by injection Hi as ->.
  - injection Hi as ->. congruence.
  - injection Hi as ->. congruence.
  - destruct (IH i Hi Hfatal) as [Hl ->]. cbn [length]. by rewrite Hl.
Qed.

(** X12. An error that is not retryable ends the run: the attempt that
    throws it is the last one, and the run resolves with [success: false]
    and the message of this error. *)
Theorem fatal_error_ends_run (h : Hook) (i : nat) (e : Error) :
  outcomes (generateProgram h) !! i = Some (Thrown e) ->
  isRetryable e = false ->
  length (outcomes (generateProgram h)) = S i
  /\ result (generateProgram h)
     = Some {| GenerationResult.success := false;
               GenerationResult.workoutsCreated := 0;
               GenerationResult.error := Some (message e) |}.
Proof.
  intros Hi He. by eapply rounds_stop; [apply generateProgram_rounds|..].
Qed.

(** X13. Without an access token the run makes no request and does not
    retry: it fails at once with [No authentication token], which is also
    the error the hook shows. *)
Theorem no_token_no_request (h : Hook) :
  from_option truthy false (access_token (env 0)) = false ->
  let r := generateProgram h in
  effects r = []
  /\ outcomes r = [Thrown (new_Error "No authentication token")]
  /\ result r = Some {| GenerationResult.success := false;
                        GenerationResult.workoutsCreated := 0;
                        GenerationResult.error := Some "No authentication token" |}
  /\ stage (final r) = failed
  /\ error (final r) = Some "No authentication token"
  /\ isGenerating (final r) = false.
Proof.
  intros Htoken. cbv zeta.
  unfold UseWorkout.generateProgram. cbn [UseWorkout.loop].
  rewrite bool_decide_eq_true_2 by (unfold MAX_RETRIES; lia).
  unfold UseWorkout.attempt.
  destruct (access_token (env 0)) as [token|]; cbn in Htoken;
    [rewrite Htoken|]; cbn; done.
Qed.

Lemma attempt_returned (retryCount : nat) (h h' : Hook) (fx : list Effect) (n : Z) :
  attempt retryCount h = (h', fx, Returned n) ->
  isGenerating h' = false /\ timerRef h' = false /\ stage h' = complete.
Proof.
  unfold UseWorkout.attempt.
  destruct (access_token (env retryCount)) as [token|]; [|done].
  destruct (truthy token); cbn [negb]; [|done].
  destruct (returned _); [done| |done].
  by intros [= <- _ _].
Qed.

Lemma loop_final (fuel retryCount : nat) (lastError : option Error) (h : Hook)
    (os : list Outcome) (fx : list Effect) (res : GenerationResult.t) :
  result (loop fuel retryCount lastError h os fx) = Some res ->
  let h' := final (loop fuel retryCount lastError h os fx) in
  isGenerating h' = false
  /\ timerRef h' = false
  /\ stage h' = (if GenerationResult.success res then complete else failed)
  /\ (GenerationResult.success res = false ->
      exists msg, error h' = Some msg /\ msg <> EmptyString).
Proof.
  assert (Hleave : forall le h os fx,
    result (leave le h os fx) = Some res ->
    let h' := final (leave le h os fx) in
    isGenerating h' = false
    /\ timerRef h' = false
    /\ stage h' = (if GenerationResult.success res then complete else failed)
    /\ (GenerationResult.success res = false ->
        exists msg, error h' = Some msg /\ msg <> EmptyString)).
  { intros le h0 os0 fx0. unfold leave, giveUp. cbn. intros [= <-]. cbn.
    repeat split. intros _. eexists. split; [done|].
    destruct le as [e|]; [|done]. by destruct (message e). }
  revert retryCount lastError h os fx.
  induction fuel as [|fuel IH]; intros rc le h os fx; [apply Hleave|].
  cbn [UseWorkout.loop]. case_bool_decide; [|apply Hleave].
  destruct (attempt rc h) as [[h' fx'] [n|e|]] eqn:Ha.
  - cbn. intros [= <-]. cbn. apply attempt_returned in Ha as (? & ? & ?).
    by repeat split.
  - destruct (isRetryable e); [|apply Hleave].
    case_bool_decide; [apply IH|apply Hleave].
  - done.
Qed.

(** X14. When the promise of [generateProgram] resolves, the hook is no
    longer generating and its timer is stopped; its stage is [complete]
    after a success and [error] after a failure, and after a failure it
    shows an error message that is not empty. *)
Theorem settled_run_final_state (h : Hook) (res : GenerationResult.t) :
  result (generateProgram h) = Some res ->
  isGenerating (final (generateProgram h)) = false
  /\ timerRef (final (generateProgram h)) = false
  /\ stage (final (generateProgram h))
     = (if GenerationResult.success res then complete else failed)
  /\ (GenerationResult.success res = false ->
      exists msg, error (final (generateProgram h)) = Some msg
                  /\ msg <> EmptyString).
Proof. apply loop_final. Qed.

End RunFacts.

Section RunWitnesses.
Import Js SseClient UseWorkout.

Lemma fatal_error_ends_run_no_token :
  length (outcomes (generateProgram Sample.parse
                      (fun _ => {| access_token := None; timeline := [] |})
                      Sample.formData false initial)) = 1%nat
  /\ result (generateProgram Sample.parse
               (fun _ => {| access_token := None; timeline := [] |})
               Sample.formData false initial)
     = Some {| GenerationResult.success := false;
               GenerationResult.workoutsCreated := 0;
               GenerationResult.error := Some "No authentication token" |}.
Proof.
  apply (fatal_error_ends_run Sample.parse
           (fun _ => {| access_token := None; timeline := [] |})
           Sample.formData false initial 0 (new_Error "No authentication token"));
    reflexivity.
Defined.

Lemma no_token_no_request_empty_token :
  from_option truthy false (Some EmptyString) = false
  /\ let r := generateProgram Sample.parse
             (fun _ => {| access_token := Some EmptyString;
                          timeline := [Sample.headers 200] |})
             Sample.formData false initial in
  effects r = []
  /\ outcomes r = [Thrown (new_Error "No authentication token")]
  /\ result r = Some {| GenerationResult.success := false;
                        GenerationResult.workoutsCreated := 0;
                        GenerationResult.error := Some "No authentication token" |}
  /\ stage (final r) = failed
  /\ error (final r) = Some "No authentication token"
  /\ isGenerating (final r) = false.
Proof.
  split; [reflexivity|].
  apply (no_token_no_request Sample.parse
           (fun _ => {| access_token := Some EmptyString;
                        timeline := [Sample.headers 200] |})
           Sample.formData false initial).
  reflexivity.
Defined.

Lemma settled_run_final_state_dropped :
  isGenerating (final (generateProgram Sample.parse Sample.dropped
                         Sample.formData false initial)) = false
  /\ timerRef (final (generateProgram Sample.parse Sample.dropped
                        Sample.formData false initial)) = false
  /\ stage (final (generateProgram Sample.parse Sample.dropped
                     Sample.formData false initial))
     = (if GenerationResult.success
             {| GenerationResult.success := false;
                GenerationResult.workoutsCreated := 0;
                GenerationResult.error := Some "Network error" |}
        then complete else failed)
  /\ (GenerationResult.success
        {| GenerationResult.success := false;
           GenerationResult.workoutsCreated := 0;
           GenerationResult.error := Some "Network error" |} = false ->
      exists msg,
        error (final (generateProgram Sample.parse Sample.dropped
                        Sample.formData false initial)) = Some msg
        /\ msg <> EmptyString).
Proof.
  apply (settled_run_final_state Sample.parse Sample.dropped Sample.formData
           false initial).
  reflexivity.
Defined.

End RunWitnesses.

(** ** The status of the response and the retries *)

Section StatusFacts.
Import Js SseClient UseWorkout.
Variable JSON_parse : string -> option Payload.
Variable env : nat -> Environment.
Variable formData : ProgramFormData.
Variable isRegeneration : bool.

Local Abbreviation attempt := (attempt JSON_parse env formData isRegeneration).
Local Abbreviation loop := (loop JSON_parse env formData isRegeneration).
Local Abbreviation generateProgram :=
  (generateProgram JSON_parse env formData isRegeneration).

(** Among the errors the transport makes of a status from 100 to 599,
    the ones of 503 and 504 are retryable and no other. *)
Lemma status_retryable (st : Z) :
  100 <= st <= 599 ->
  isRetryable (new_Error ("HTTP error! status: " +:+ toString st))
  = (st =? 503) || (st =? 504).
Proof.
  intros Hst.
  assert (Hall : forallb (fun n =>
            Bool.eqb
              (isRetryable (new_Error ("HTTP error! status: "
                                        +:+ toString (100 + Z.of_nat n))))
              ((100 + Z.of_nat n =? 503) || (100 + Z.of_nat n =? 504)))
            (seq 0 500) = true) by (vm_compute; reflexivity).
  rewrite forallb_forall in Hall.
  specialize (Hall (Z.to_nat (st - 100))).
  replace (100 + Z.of_nat (Z.to_nat (st - 100))) with st in Hall by lia.
  apply eqb_prop, Hall, in_seq. lia.
Qed.

Lemma await_settled (c : Client Attempt) (tl : list Occurrence) :
  returned c <> Pending -> await JSON_parse c tl = c.
Proof. intros H. destruct tl; cbn; by destruct (returned c). Qed.

(** A response with a status other than 200 rejects the transport
    call with the error that names the status, whatever comes after the
    headers; [onError] has cleared the timeout. *)
Lemma await_status (a : Attempt) (st : Z) (text : string) (rest : list Occurrence) :
  st <> 200 ->
  await JSON_parse (sent a)
    (Delivered [ReadyStateChange HEADERS_RECEIVED st text] :: rest)
  = {| xhr := {| readyState := HEADERS_RECEIVED; status := st;
                 responseText := text |};
       buffer := ""; lastIndex := 0;
       promise := Rejected (new_Error ("HTTP error! status: " +:+ toString st));
       returned := Rejected (new_Error ("HTTP error! status: " +:+ toString st));
       caller := clearTimeout a |}.
Proof.
  intros Hst.
  pose proof (status_message_lacks_abort st) as Habort.
  cbn [await sent returned].
  unfold occur, dispatchAll. cbn [fold_left dispatch].
  unfold onreadystatechange, Eff.exec, Eff.bind at 1, Eff.gets at 1.
  cbn [set_xhr xhr readyState status same andb].
  rewrite (proj2 (Z.eqb_neq st 200) Hst). cbn [negb].
  revert Habort. generalize ("HTTP error! status: " +:+ toString st).
  intros msg Habort. cbn. rewrite Habort. cbn.
  by rewrite await_settled.
Qed.

(** An attempt whose response has a status other than 200 throws the
    error that names the status. *)
Lemma attempt_status (retryCount : nat) (h : Hook) (token : string) (st : Z)
    (text : string) (rest : list Occurrence) :
  access_token (env retryCount) = Some token ->
  truthy token = true ->
  timeline (env retryCount)
  = Delivered [ReadyStateChange HEADERS_RECEIVED st text] :: rest ->
  st <> 200 ->
  (attempt retryCount h).2
  = Thrown (new_Error ("HTTP error! status: " +:+ toString st)).
Proof.
  intros Htoken Htruthy Htimeline Hst. unfold UseWorkout.attempt.
  rewrite Htoken, Htruthy, Htimeline. cbn [negb].
  by rewrite await_status.
Qed.

(** X15. When the first response has a status from 100 to 599 other than
    200, the first attempt fails with the error that names the status, and
    the run makes a second attempt exactly when the status is 503 or 504. *)
Theorem status_decides_retry (h : Hook) (token : string) (st : Z) (text : string)
    (rest : list Occurrence) :
  access_token (env 0) = Some token ->
  truthy token = true ->
  timeline (env 0) = Delivered [ReadyStateChange HEADERS_RECEIVED st text] :: rest ->
  100 <= st <= 599 ->
  st <> 200 ->
  outcomes (generateProgram h) !! 0%nat
  = Some (Thrown (new_Error ("HTTP error! status: " +:+ toString st)))
  /\ ((1 < length (outcomes (generateProgram h)))%nat <-> st = 503 \/ st = 504).
Proof.
  intros Htoken Htruthy Htimeline Hrange Hst.
  pose proof (attempt_status 0 (reset h) token st text rest
                Htoken Htruthy Htimeline Hst) as Ha.
  pose proof (status_retryable st Hrange) as Hr.
  unfold UseWorkout.generateProgram. cbn [UseWorkout.loop].
  rewrite bool_decide_eq_true_2 by (unfold MAX_RETRIES; lia).
  destruct (attempt 0 (reset h)) as [[h' fx'] o]. cbn [snd] in Ha. subst o.
  rewrite Hr. destruct ((st =? 503) || (st =? 504)) eqn:Hb.
  - rewrite bool_decide_eq_true_2 by (unfold MAX_RETRIES; lia).
    match goal with
    | |- context [UseWorkout.loop _ _ _ _ ?f ?rc ?le ?hh ?os ?fx] =>
        destruct (loop_rounds JSON_parse env formData isRegeneration
                    f rc le hh os fx)
          as (os' & fx'' & -> & _ & HR); [unfold MAX_RETRIES; lia..|]
    end.
    apply rounds_shape in HR as (Hlen & _). cbn [app].
    split; [done|]. split; [lia|]. intros _. cbn [length]. lia.
  - unfold leave, giveUp. cbn. split; [done|]. lia.
Qed.

End StatusFacts.

Section StatusWitnesses.
Import Js SseClient UseWorkout.

Lemma status_decides_retry_unavailable :
  outcomes (generateProgram Sample.parse Sample.unavailable Sample.formData
              false initial) !! 0%nat
  = Some (Thrown (new_Error ("HTTP error! status: " +:+ toString 503)))
  /\ ((1 < length (outcomes (generateProgram Sample.parse Sample.unavailable
                              Sample.formData false initial)))%nat
      <-> 503 = 503 \/ 503 = 504).
Proof.
  apply (status_decides_retry Sample.parse Sample.unavailable Sample.formData
           false initial "token" 503 "" []);
    [reflexivity|reflexivity|reflexivity|lia|lia].
Defined.

End StatusWitnesses.

(** ** The equipment tables and the screens *)

Section EquipmentFacts.
Import Js Tables Screens.

Lemma findByValue_Some (id : Z) (e : Z * string) :
  findByValue id = Some e ->
  e.1 = id /\ id ∈ equipmentList.*1 /\ findByLabel e.2 = Some e /\ truthy e.2 = true.
Proof.
  intros H. apply find_some in H as [Hin Hid]. apply Z.eqb_eq in Hid.
  assert (Hall : forallb (fun e =>
            match findByLabel e.2 with
            | Some e' => (e'.1 =? e.1) && String.eqb e'.2 e.2
            | None => false
            end && truthy e.2) equipmentList = true) by (vm_compute; reflexivity).
  rewrite forallb_forall in Hall. specialize (Hall e Hin).
  apply andb_true_iff in Hall as [Hl Ht].
  repeat split; [done| |by (destruct (findByLabel e.2) as [[v l]|]; [|done];
    apply andb_true_iff in Hl as [Hv Hl]; apply Z.eqb_eq in Hv;
    apply String.eqb_eq in Hl; destruct e; cbn in *; by subst)|done].
  subst id. apply list_elem_of_fmap. exists e. split; [done|].
  by apply list_elem_of_In.
Qed.

Lemma findByValue_None (id : Z) :
  findByValue id = None -> id ∉ equipmentList.*1.
Proof.
  intros H Hin. apply list_elem_of_fmap in Hin as (e & -> & Hin).
  apply list_elem_of_In in Hin.
  pose proof (find_none _ _ H e Hin) as Hf. cbn in Hf.
  by rewrite Z.eqb_refl in Hf.
Qed.

(** X16. Saving a selection of equipment and loading it again gives it
    back, in its order, without the identifiers that are not in
    [equipmentList]: the labels are stored, and every label leads back to
    the identifier it was made from. *)
Theorem equipment_round_trip (ids : list Z) :
  equipmentIds (equipmentLabels ids) = filter (fun id => id ∈ equipmentList.*1) ids.
Proof.
  induction ids as [|id ids IH]; [done|].
  unfold equipmentLabels, equipmentIds in *. rewrite omap_cons_unfold.
  destruct (findByValue id) as [e|] eqn:Hf; cbn [fmap option_fmap option_map].
  - apply findByValue_Some in Hf as (Hid & Hin & Hl & _).
    rewrite omap_cons_unfold, Hl. cbn [fmap option_fmap option_map].
    rewrite filter_cons_True by done. by rewrite IH, Hid.
  - apply findByValue_None in Hf. by rewrite filter_cons_False.
Qed.

(** X17. The equipment names in the request of [generateProgram] are the
    labels that both screens store: the three conversions from
    identifiers to labels agree, on any identifiers. *)
Theorem equipment_names_agree (ids : list Z) :
  selectedEquipmentNames ids = equipmentLabels ids
  /\ equipmentNames ids = equipmentLabels ids.
Proof.
  unfold selectedEquipmentNames, equipmentNames, equipmentLabels.
  induction ids as [|id ids [IH1 IH2]]; [done|].
  rewrite !omap_cons_unfold. cbn [fmap list_fmap List.filter].
  destruct (findByValue id) as [e|] eqn:Hf; cbn [fmap option_fmap option_map].
  - apply findByValue_Some in Hf as (_ & _ & _ & Ht). rewrite Ht.
    split; f_equal; done.
  - cbn [truthy]. done.
Qed.

Lemma equipmentIds_equipmentNames (ids : list Z) :
  equipmentIds (equipmentNames ids) = filter (fun id => id ∈ equipmentList.*1) ids.
Proof.
  induction ids as [|id ids IH]; [done|].
  unfold equipmentNames, equipmentIds in *. rewrite omap_cons_unfold.
  destruct (findByValue id) as [e|] eqn:Hf; cbn [fmap option_fmap option_map].
  - apply findByValue_Some in Hf as (Hid & Hin & Hl & Ht). rewrite Ht.
    rewrite omap_cons_unfold, Hl. cbn [fmap option_fmap option_map].
    rewrite filter_cons_True by done. by rewrite IH, Hid.
  - apply findByValue_None in Hf. by rewrite filter_cons_False.
Qed.

Lemma omap_inr (names : list string) :
  omap (fun item : Z + string => match item with inr name => Some name | inl _ => None end)
       (inr (A:=Z) <$> names) = names.
Proof. induction names as [|name names IH]; [done|]. cbn. by rewrite IH. Qed.

(** X18. The program writer stores the labels of the selected equipment
    with the gym type. Loading them gives the selection back, without the
    identifiers that are not in [equipmentList]; but a selection that is
    empty, or holds no listed identifier, does not come back when there is
    a gym type: the preset of the gym type comes instead. *)
Theorem saved_equipment_is_loaded (ids : list Z) (gymType : string) :
  let listed := filter (fun id => id ∈ equipmentList.*1) ids in
  loadEquipment (Some (inr (A:=Z) <$> equipmentNames ids)) gymType
  = if bool_decide (listed = []) && truthy gymType
    then default (Ids []) (presetOf gymType)
    else Ids listed.
Proof.
  cbv zeta. unfold loadEquipment.
  assert (Hids : match inr (A:=Z) <$> equipmentNames ids with
                 | inl _ :: _ =>
                     omap (fun item : Z + string =>
                             match item with inl n => Some n | inr _ => None end)
                          (inr (A:=Z) <$> equipmentNames ids)
                 | _ =>
                     equipmentIds
                       (omap (fun item : Z + string =>
                                match item with inr name => Some name | inl _ => None end)
                             (inr (A:=Z) <$> equipmentNames ids))
                 end = filter (fun id => id ∈ equipmentList.*1) ids).
  { rewrite <- equipmentIds_equipmentNames.
    destruct (equipmentNames ids) as [|l ls] eqn:E; [done|].
    rewrite <- E. cbn [fmap list_fmap]. rewrite E at 1. by rewrite omap_inr. }
  rewrite Hids.
  rewrite (bool_decide_ext (length (filter (fun id => id ∈ equipmentList.*1) ids) = 0%nat)
             (filter (fun id => id ∈ equipmentList.*1) ids = []))
    by apply length_zero_iff_nil.
  destruct (bool_decide _ && truthy gymType); [|done].
  by destruct (presetOf gymType).
Qed.

Example empty_selection_is_not_kept :
  loadEquipment (Some (inr (A:=Z) <$> equipmentNames [])) "Home Gym"
  = Ids [4; 5; 6; 16; 24; 27].
Proof. reflexivity. Qed.

End EquipmentFacts.

Section PresetFacts.
Import Js Tables Screens.

(** X19. Every preset of [gymEquipmentPresets] belongs to a gym type of
    [gymTypes] and names each piece of equipment once, and only equipment
    of [equipmentList]: a preset that is saved and loaded again comes back
    as it is, and none of its entries is missing from a request. *)
Theorem presets_are_listed (gymType : string) (ids : list Z) :
  (gymType, ids) ∈ gymEquipmentPresets ->
  gymType ∈ gymTypes
  /\ NoDup ids
  /\ equipmentIds (equipmentLabels ids) = ids
  /\ length (selectedEquipmentNames ids) = length ids.
Proof.
  intros Hin. unfold gymEquipmentPresets in Hin.
  repeat (apply elem_of_cons in Hin as [[= -> ->]|Hin];
          [split; [|split; [|split]];
           [unfold gymTypes; set_solver
           |apply (bool_decide_unpack _); vm_compute; reflexivity
           |vm_compute; reflexivity
           |vm_compute; reflexivity]|]).
  by apply elem_of_nil in Hin.
Qed.

Lemma presets_are_listed_home_gym :
  "Home Gym" ∈ gymTypes
  /\ NoDup [4; 5; 6; 16; 24; 27]
  /\ equipmentIds (equipmentLabels [4; 5; 6; 16; 24; 27]) = [4; 5; 6; 16; 24; 27]
  /\ length (selectedEquipmentNames [4; 5; 6; 16; 24; 27])
     = length [4; 5; 6; 16; 24; 27].
Proof.
  apply (presets_are_listed "Home Gym").
  apply (bool_decide_unpack _). vm_compute. reflexivity.
Defined.

(** Every gym type has a preset. *)
Lemma gymTypes_have_presets : gymEquipmentPresets.*1 = gymTypes.
Proof. reflexivity. Qed.

End PresetFacts.

(** ** Toggling a day or a piece of equipment *)

Section ToggleFacts.
Import Js Tables Screens.
Context {A : Type} `{EqDecision A}.

Lemma filter_other (x : A) (l : list A) :
  x ∉ l -> filter (fun y => y <> x) l = l.
Proof.
  induction l as [|y l IH]; [done|]. intros Hx.
  apply not_elem_of_cons in Hx as [Hxy Hx].
  rewrite filter_cons_True by done. by rewrite IH.
Qed.

Lemma toggle_NoDup (x : A) (current : list A) :
  NoDup current -> NoDup (toggle x current).
Proof.
  intros Hnd. unfold toggle. case_bool_decide as Hin.
  - by apply NoDup_filter.
  - apply NoDup_app. split; [done|].
    split; [set_solver|apply NoDup_singleton].
Qed.

(** X20. A press on a chip flips the element it names and no other; a
    selection without duplicates stays without duplicates; and two presses
    on a chip that was not selected give the selection back as it was. *)
Theorem toggle_flips (x : A) (current : list A) :
  (x ∈ toggle x current <-> x ∉ current)
  /\ (forall y, y <> x -> (y ∈ toggle x current <-> y ∈ current))
  /\ (NoDup current -> NoDup (toggle x current))
  /\ (x ∉ current -> toggle x (toggle x current) = current).
Proof.
  unfold toggle. case_bool_decide as Hin.
  - split; [|split; [|split]].
    + split; [|done]. intros Hf. by apply list_elem_of_filter in Hf as [Hf _].
    + intros y Hy. rewrite list_elem_of_filter. naive_solver.
    + intros Hnd. pose proof (toggle_NoDup x current Hnd) as Ht.
      unfold toggle in Ht. by rewrite bool_decide_eq_true_2 in Ht.
    + done.
  - split; [|split; [|split]].
    + split; [done|]. intros _. set_solver.
    + intros y Hy. set_solver.
    + intros Hnd. pose proof (toggle_NoDup x current Hnd) as Ht.
      unfold toggle in Ht. by rewrite bool_decide_eq_false_2 in Ht.
    + intros _. rewrite bool_decide_eq_true_2 by set_solver.
      rewrite filter_app, filter_other by done.
      rewrite filter_cons_False by (intros Hf; by apply Hf). by rewrite app_nil_r.
Qed.

End ToggleFacts.

(** ** From the day chips to the request *)

Section DayFacts.
Import Js ProgramConfig UseWorkout Tables Screens.

Lemma table_day (day : string) :
  day ∈ value <$> Tables.daysOfWeek ->
  exists n, numberOf day = Some n
            /\ dayToNumber day = Some (Number n)
            /\ (n, day) ∈ dayNumberToName.
Proof.
  intros Hin. cbn in Hin.
  repeat (apply elem_of_cons in Hin as [->|Hin];
          [eexists; split; [reflexivity|];
           split; [vm_compute; reflexivity|unfold dayNumberToName; set_solver]|]).
  by apply elem_of_nil in Hin.
Qed.

Lemma pressDays_table (presses days : list string) :
  Forall (fun day => day ∈ value <$> Tables.daysOfWeek) days ->
  NoDup days ->
  Forall (fun day => day ∈ value <$> Tables.daysOfWeek) presses ->
  Forall (fun day => day ∈ value <$> Tables.daysOfWeek) (pressDays presses days)
  /\ NoDup (pressDays presses days).
Proof.
  revert days. induction presses as [|day presses IH]; intros days Hdays Hnd Hp;
    [done|].
  apply Forall_cons in Hp as [Hday Hp]. cbn [pressDays fold_left].
  apply IH; [|by apply toggle_NoDup|done].
  unfold handleDayToggle, toggle. case_bool_decide.
  - rewrite Forall_forall in Hdays. apply Forall_forall. intros x Hx.
    apply list_elem_of_filter in Hx as [_ Hx]. by apply Hdays.
  - apply Forall_app. split; [done|]. by apply Forall_singleton.
Qed.

Lemma table_days_numbers (days : list string) :
  Forall (fun day => day ∈ value <$> Tables.daysOfWeek) days ->
  exists ns, mapM numberOf days = Some ns
             /\ omap dayToNumber days = Number <$> ns.
Proof.
  induction 1 as [|day days Hday _ (ns & Hns & Hnum)]; [by exists []|].
  destruct (table_day day Hday) as (n & Hn & Hd & _).
  exists (n :: ns). split.
  - apply mapM_Some. apply mapM_Some in Hns. by constructor.
  - rewrite omap_cons_unfold, Hd. by rewrite Hnum.
Qed.

(** X21. The program writer, from a selection of days of the table without
    duplicates and through any presses on the day chips: the selection
    stays a selection of days of the table without duplicates, and the
    request that [generateProgram] builds from it names the number of
    every selected day, in the order of the selection, and as many days per
    week as are selected. With no day selected it names Monday, Wednesday
    and Friday and zero days per week. *)
Theorem selected_days_reach_request (numberOfWeeks : Z) (days presses : list string)
    (isRegeneration : bool) :
  Forall (fun day => day ∈ value <$> Tables.daysOfWeek) days ->
  NoDup days ->
  Forall (fun day => day ∈ value <$> Tables.daysOfWeek) presses ->
  let selected := pressDays presses days in
  let body := requestBody (handleConfirmGeneration numberOfWeeks selected)
                isRegeneration in
  NoDup selected
  /\ days_per_week body = Z.of_nat (length selected)
  /\ exists ns,
       mapM numberOf selected = Some ns
       /\ days_of_week body
          = if bool_decide (selected = []) then [Number 1; Number 3; Number 5]
            else Number <$> ns.
Proof.
  intros Hdays Hnd Hp. cbv zeta.
  destruct (pressDays_table presses days Hdays Hnd Hp) as [Hsel Hnd'].
  split; [done|]. split; [done|].
  destruct (table_days_numbers _ Hsel) as (ns & Hns & Hnum).
  exists ns. split; [done|].
  cbn [requestBody days_of_week handleConfirmGeneration UseWorkout.daysOfWeek].
  unfold daysOfWeekNumbers. rewrite Hnum.
  apply mapM_Some, Forall2_length in Hns.
  destruct (pressDays presses days) as [|d sel]; destruct ns as [|n ns];
    done.
Qed.

Lemma selected_days_reach_request_sample :
  NoDup ["Monday"; "Wednesday"; "Friday"]
  /\ let selected :=
       pressDays ["Wednesday"; "Sunday"] ["Monday"; "Wednesday"; "Friday"] in
     let body := requestBody (handleConfirmGeneration 4 selected) false in
     NoDup selected
     /\ days_per_week body = Z.of_nat (length selected)
     /\ exists ns,
          mapM numberOf selected = Some ns
          /\ days_of_week body
             = if bool_decide (selected = []) then [Number 1; Number 3; Number 5]
               else Number <$> ns.
Proof.
  assert (Hnd : NoDup ["Monday"; "Wednesday"; "Friday"])
    by (apply (bool_decide_unpack _); vm_compute; reflexivity).
  split; [exact Hnd|].
  apply (selected_days_reach_request 4 ["Monday"; "Wednesday"; "Friday"]
           ["Wednesday"; "Sunday"] false);
    [|exact Hnd|];
    apply (bool_decide_unpack _); vm_compute; reflexivity.
Defined.

Example selected_days_numbers :
  days_of_week
    (requestBody
       (handleConfirmGeneration 4
          (pressDays ["Wednesday"; "Sunday"] ["Monday"; "Wednesday"; "Friday"]))
       false)
  = [Number 1; Number 5; Number 0].
Proof. vm_compute. reflexivity. Qed.

(** Days stored as numbers. *)



(** X23. The three tables of days agree: [dayNumberToName] is the inverse
    of the own properties of [dayNameToNumber], and the days offered for
    selection are the names of [dayNameToNumber], each with the number it
    has there. *)
Theorem day_tables_agree (name : string) (n : Z) :
  (dayNames !! name = Some n <-> (n, name) ∈ dayNumberToName)
  /\ (dayNames !! name = Some n <->
      exists d, d ∈ Tables.daysOfWeek /\ value d = name /\ number d = n).
Proof.
  split; split.
  - intros H. apply dayNames_weekdays in H. unfold dayNumberToName.
    repeat (apply elem_of_cons in H as [[= -> ->]|H]; [set_solver|]).
    by apply elem_of_nil in H.
  - unfold dayNumberToName. intros H.
    repeat (apply elem_of_cons in H as [[= -> ->]|H]; [by vm_compute|]).
    by apply elem_of_nil in H.
  - intros H. apply dayNames_weekdays in H. unfold Tables.daysOfWeek.
    repeat (apply elem_of_cons in H as [[= -> ->]|H];
            [match goal with
             | |- exists d, _ /\ value d = ?nm /\ _ =>
                 let r := eval vm_compute in
                   (List.find (fun d => String.eqb (value d) nm) Tables.daysOfWeek) in
                 match r with Some ?d => exists d end
             end; split; [set_solver|split; reflexivity]|]).
    by apply elem_of_nil in H.
  - intros (d & H & <- & <-). unfold Tables.daysOfWeek in H.
    repeat (apply elem_of_cons in H as [->|H]; [by vm_compute|]).
    by apply elem_of_nil in H.
Qed.

End DayFacts.

(** ** The deadline of an attempt and [cancel] *)

Section DeadlineFacts.
Import Js SseClient UseWorkout.

(** X24. The deadline of an attempt is five minutes at least and thirty at
    most, and a longer program never gets a shorter deadline. *)
Theorem getTimeout_monotone (weeks weeks' : Z) :
  weeks <= weeks' ->
  5 * 60 * 1000 <= getTimeout weeks
  /\ getTimeout weeks <= getTimeout weeks'
  /\ getTimeout weeks' <= 30 * 60 * 1000.
Proof.
  intros H. unfold getTimeout.
  repeat match goal with |- context [?a <? ?b] => destruct (Z.ltb_spec a b) end;
    lia.
Qed.

Lemma getTimeout_monotone_weeks :
  5 * 60 * 1000 <= getTimeout 4
  /\ getTimeout 4 <= getTimeout 8
  /\ getTimeout 8 <= 30 * 60 * 1000.
Proof. apply getTimeout_monotone. lia. Defined.

(** X25. [cancel] is idempotent: after a first call the hook holds no
    controller, and a second call aborts nothing and leaves the request,
    the promises and the hook as they are. *)
Theorem cancel_idempotent (JSON_parse : string -> option Payload)
    (c : Client Attempt) :
  abortControllerRef (hook (caller (cancel JSON_parse c))) = None
  /\ cancel JSON_parse (cancel JSON_parse c) = cancel JSON_parse c.
Proof.
  assert (H : abortControllerRef (hook (caller (cancel JSON_parse c))) = None).
  { unfold cancel. by destruct (abortControllerRef (hook (caller c))) eqn:E. }
  split; [done|].
  unfold cancel at 1. rewrite H. reflexivity.
Qed.

End DeadlineFacts.
